(** * Phase-shift loader of CLEED: [leed_inp_phase] (linpphase.c)

    A shallow embedding of the function that resolves a phase-shift file
    name, looks it up among the sets already read, and otherwise reads the
    file into a new [leed_phase] slot.

    Conventions of the embedding
    - [real] (a [double] or a [float], chosen by [CLEED_REAL_IS_DOUBLE]) is
      the rational numbers [Q]; arithmetic is exact and numeric equality is
      [Qeq] ([==]).
    - A character array is a [list ascii] holding every cell of the array;
      the C string stored in it ends at the first [NUL].
    - A value that C leaves indeterminate (a cell of a fresh allocation, a
      variable no conversion of [sscanf] assigned) is [None].
    - An execution ends in [Return], in [Exit] (the code called [exit]) or in
      [Undefined] (a null dereference, a read outside an array).
    - [malloc], [realloc] and [strdup] are taken to succeed, and the file
      name to fit its array.
    - [sscanf] is modelled on decimal input ([%d], [%s], [%le] with an
      optional exponent); integers do not overflow.  The two [%d] store
      into [size_t] variables: the number scanned is taken to be the value
      of the variable, and a negative one is outside the model.
    - Line 130 takes the slot to fill as [&p_phs_shifts[i_phase-1]]; it is
      read as slot [i_phase - 1] of the array [*p_phs_shifts], which is the
      array that lines 106 and 127 address. *)

From Stdlib Require Import ZArith QArith Qabs List String Ascii Bool Arith Lia.
Import ListNotations.

Local Open Scope nat_scope.

(** ** Characters and C strings *)

Definition NUL : ascii := "000"%char.
Definition LF : ascii := "010"%char.

(** [isspace] of the C locale. *)
Definition isspace (c : ascii) : bool :=
  let n := nat_of_ascii c in (n =? 32) || ((9 <=? n) && (n <=? 13)).

Definition isdigit (c : ascii) : bool :=
  let n := nat_of_ascii c in (48 <=? n) && (n <=? 57).

Definition digit_val (c : ascii) : Z := Z.of_nat (nat_of_ascii c) - 48.

Fixpoint span {A : Type} (p : A -> bool) (l : list A) : list A * list A :=
  match l with
  | [] => ([], [])
  | x :: t => if p x then let (a, b) := span p t in (x :: a, b) else ([], l)
  end.

(** The C string held in a character array: the cells before the first NUL. *)
Definition cstr (l : list ascii) : list ascii :=
  fst (span (fun c => negb (Ascii.eqb c NUL)) l).

Definition digits_Z (ds : list ascii) : Z :=
  fold_left (fun acc c => (10 * acc + digit_val c)%Z) ds 0%Z.

Definition scan_sign (l : list ascii) : bool * list ascii :=
  match l with
  | c :: t =>
      if Ascii.eqb c "-" then (true, t)
      else if Ascii.eqb c "+" then (false, t)
      else (false, l)
  | [] => (false, l)
  end.

Definition skip_space (l : list ascii) : list ascii := snd (span isspace l).

(** ** The conversions of [sscanf] the function uses *)

(** [%d]: white space, an optional sign, one digit or more.  The result is
    the value and the rest of the input. *)
Definition scan_d (l : list ascii) : option (Z * list ascii) :=
  let (neg, l1) := scan_sign (skip_space l) in
  let (ds, l2) := span isdigit l1 in
  match ds with
  | [] => None
  | _ :: _ => Some (if neg then (- digits_Z ds)%Z else digits_Z ds, l2)
  end.

(** [%s]: white space, then the longest run of non-space characters. *)
Definition scan_s (l : list ascii) : option (list ascii * list ascii) :=
  let (tok, l1) := span (fun c => negb (isspace c)) (skip_space l) in
  match tok with
  | [] => None
  | _ :: _ => Some (tok, l1)
  end.

(** What [sscanf(linebuffer, "%d %d %s", &n_eng, &lmax, eng_type)] assigned:
    [Hdr0] to [Hdr3] for the return values up to 0, 1, 2 and 3. *)
Inductive header : Type :=
| Hdr0
| Hdr1 (n : Z)
| Hdr2 (n l : Z)
| Hdr3 (n l : Z) (tok : list ascii).

Definition sscanf_d_d_s (buf : list ascii) : header :=
  match scan_d (cstr buf) with
  | None => Hdr0
  | Some (n, r1) =>
      match scan_d r1 with
      | None => Hdr1 n
      | Some (l, r2) =>
          match scan_s r2 with
          | None => Hdr2 n l
          | Some (tok, _) => Hdr3 n l tok
          end
      end
  end.

Definition real := Q.
Bind Scope Q_scope with real.

(** The optional exponent part of a decimal floating constant: [e] or [E],
    an optional sign, digits.  Without a digit the part is not taken. *)
Definition scan_exponent (l : list ascii) : Z :=
  match l with
  | c :: t =>
      if Ascii.eqb c "e" || Ascii.eqb c "E" then
        let (neg, t1) := scan_sign t in
        let (ds, _) := span isdigit t1 in
        match ds with
        | [] => 0%Z
        | _ :: _ => if neg then (- digits_Z ds)%Z else digits_Z ds
        end
      else 0%Z
  | [] => 0%Z
  end.

Definition dec_value (neg : bool) (ip fp : list ascii) (e : Z) : real :=
  let q := (inject_Z (digits_Z (ip ++ fp))
            * Qpower 10 (e - Z.of_nat (List.length fp)))%Q in
  if neg then Qopp q else q.

(** [%le] (and [%e]) on decimal input: white space, an optional sign, digits
    with an optional point, an optional exponent.  [None] is a matching
    failure: nothing is assigned.  The array ends the input as a NUL does. *)
Definition scan_le (l : list ascii) : option real :=
  let (neg, l1) := scan_sign (skip_space l) in
  let (ip, l2) := span isdigit l1 in
  let (fp, l3) :=
    match l2 with
    | c :: t => if Ascii.eqb c "." then span isdigit t else ([], l2)
    | [] => ([], l2)
    end in
  match ip ++ fp with
  | [] => None
  | _ :: _ => Some (dec_value neg ip fp (scan_exponent l3))
  end.

Definition sscanf_le (buf : list ascii) : option real := scan_le (cstr buf).

(** [strncmp(a, b, n) == 0] on character arrays. *)
Fixpoint strncmp_eq (a b : list ascii) (n : nat) : bool :=
  match n with
  | 0 => true
  | S n' =>
      match cstr a, cstr b with
      | [], [] => true
      | x :: _, y :: _ => Ascii.eqb x y && strncmp_eq (tl a) (tl b) n'
      | _, _ => false
      end
  end.

(** ** Executions *)

Inductive undefined_behaviour : Type :=
| NullDereference      (* [*fgets(...)] when [fgets] returned NULL *)
| ReadPastLinebuffer   (* [linebuffer[i_str]] with [i_str] outside the array *)
| ReadBeforeEnergy     (* [energy[i_eng-1]] with [i_eng = 0] *)
| IndeterminateRead    (* a slot of the list compared before it was written *)
| NegativeCount.       (* a negative [%d] stored into a [size_t] *)

Inductive outcome (A : Type) : Type :=
| Return (a : A)
| Exit (status : Z)
| Undefined (u : undefined_behaviour).

Arguments Return {A} a.
Arguments Exit {A} status.
Arguments Undefined {A} u.

(** What the function does to the world outside its arguments: the messages
    of [ERROR_MSG] and [WARNING_MSG] and the calls of [fopen].  The output of
    [CONTROL_MSG] is debugging output and is left out. *)
Inductive event : Type :=
| ErrorMsg (text : string)
| WarningEOF (expected found : nat) (file : string)
| Fopen (file : string).

(** A computation: the events so far and how it ended. *)
Definition M (A : Type) : Type := list event * outcome A.

Definition ret {A : Type} (a : A) : M A := ([], Return a).

Definition bind {A B : Type} (m : M A) (k : A -> M B) : M B :=
  match m with
  | (tr, Return a) => let (tr', o) := k a in (tr ++ tr', o)
  | (tr, Exit st) => (tr, Exit st)
  | (tr, Undefined u) => (tr, Undefined u)
  end.

Definition emit (e : event) : M unit := ([e], Return tt).
Definition exit {A : Type} (status : Z) : M A := ([], Exit status).
Definition undefined {A : Type} (u : undefined_behaviour) : M A :=
  ([], Undefined u).

Notation "x <- m ;; k" := (bind m (fun x => k))
  (at level 61, m at next level, right associativity).
Notation "m ;;; k" := (bind m (fun _ => k))
  (at level 61, right associativity).

(** ** Data *)

(** The four cells [dr[0..3]] of a displacement. *)
Record displacement : Type := mk_dr {
  dr_0 : real; dr_1 : real; dr_2 : real; dr_3 : real }.

(** A slot of the list [*p_phs_shifts].  The declaration of [leed_phase]
    (leed.h) is not among the sources; these are the members the function
    reads and writes.  [energy] and [pshift] are the arrays the two pointers
    address, empty until [malloc] gives them their cells. *)
Record leed_phase : Type := mk_phase {
  lmax : option Z;
  n_eng : option nat;
  eng_min : option real;
  eng_max : option real;
  energy : list (option real);
  pshift : list (option real);
  dr : option displacement;
  input_file : option string }.

Definition fresh_slot : leed_phase := mk_phase None None None None [] [] None None.

Definition set_lmax (v : Z) (p : leed_phase) : leed_phase :=
  mk_phase (Some v) (n_eng p) (eng_min p) (eng_max p) (energy p) (pshift p)
           (dr p) (input_file p).
Definition set_n_eng (v : nat) (p : leed_phase) : leed_phase :=
  mk_phase (lmax p) (Some v) (eng_min p) (eng_max p) (energy p) (pshift p)
           (dr p) (input_file p).
Definition set_eng_min (v : option real) (p : leed_phase) : leed_phase :=
  mk_phase (lmax p) (n_eng p) v (eng_max p) (energy p) (pshift p)
           (dr p) (input_file p).
Definition set_eng_max (v : option real) (p : leed_phase) : leed_phase :=
  mk_phase (lmax p) (n_eng p) (eng_min p) v (energy p) (pshift p)
           (dr p) (input_file p).
Definition set_energy (v : list (option real)) (p : leed_phase) : leed_phase :=
  mk_phase (lmax p) (n_eng p) (eng_min p) (eng_max p) v (pshift p)
           (dr p) (input_file p).
Definition set_pshift (v : list (option real)) (p : leed_phase) : leed_phase :=
  mk_phase (lmax p) (n_eng p) (eng_min p) (eng_max p) (energy p) v
           (dr p) (input_file p).
Definition set_dr (v : displacement) (p : leed_phase) : leed_phase :=
  mk_phase (lmax p) (n_eng p) (eng_min p) (eng_max p) (energy p) (pshift p)
           (Some v) (input_file p).
Definition set_input_file (v : string) (p : leed_phase) : leed_phase :=
  mk_phase (lmax p) (n_eng p) (eng_min p) (eng_max p) (energy p) (pshift p)
           (dr p) (Some v).

(** The static counter [i_phase] and the array [*p_phs_shifts]; the caller
    passes the same [p_phs_shifts] at every call. *)
Record repository : Type := mk_repo {
  i_phase : nat;
  phs_shifts : list leed_phase }.

Definition empty_repository : repository := mk_repo 0 [].

(** What the function reads from outside: the environment variable, the
    files [fopen] can open with their contents, and the bytes its automatic
    arrays [linebuffer] and [eng_type] hold on entry. *)
Record world : Type := mk_world {
  getenv_CLEED_PHASE : option string;
  files : string -> option (list ascii);
  linebuffer_entry : nat -> ascii;
  eng_type_entry : nat -> ascii }.

(** Assignment to cell [i] of an array. *)
Fixpoint store {A : Type} (i : nat) (v : A) (l : list A) : list A :=
  match l, i with
  | [], _ => []
  | _ :: t, 0 => v :: t
  | x :: t, S j => x :: store j v t
  end.

(** [malloc(n * sizeof ...)]: [n] indeterminate cells. *)
Definition malloc {A : Type} (undef : A) (n : nat) : list A := repeat undef n.

(** [realloc] to [n] cells: the old cells that fit are kept. *)
Definition realloc {A : Type} (undef : A) (l : list A) (n : nat) : list A :=
  firstn n l ++ repeat undef (n - List.length l).

(** ** Reading lines *)

(** The characters one [fgets] of size [n] takes: at most [n - 1], up to and
    with the first newline. *)
Fixpoint take_line (room : nat) (inp : list ascii) : list ascii * list ascii :=
  match room, inp with
  | 0, _ => ([], inp)
  | _, [] => ([], [])
  | S r, c :: t =>
      if Ascii.eqb c LF then ([c], t)
      else let (a, b) := take_line r t in (c :: a, b)
  end.

(** [fgets(buf, n, inp_stream)]: [None] is NULL (end of file, nothing read);
    otherwise the line and a NUL replace the first cells of [buf]. *)
Definition fgets (buf : list ascii) (n : nat) (inp : list ascii)
  : option (list ascii * list ascii) :=
  match inp with
  | [] => None
  | _ :: _ =>
      let (line, rest) := take_line (n - 1) inp in
      Some (line ++ NUL :: skipn (S (List.length line)) buf, rest)
  end.

(** ** The packed phase shifts of one line *)

Definition is_blank_or_minus (c : ascii) : bool :=
  Ascii.eqb c " " || Ascii.eqb c "-".

(** [while (cond(linebuffer[i_str])) i_str++;] on the cells from [i_str] on:
    the number of steps, or [None] when the index leaves the array. *)
Fixpoint scan_while (cond : ascii -> bool) (cells : list ascii) : option nat :=
  match cells with
  | [] => None
  | c :: t => if cond c then option_map S (scan_while cond t) else Some 0
  end.

(** The two [while] loops after each value (lines 235-236). *)
Definition next_field (linebuffer : list ascii) (i_str : nat) : option nat :=
  match scan_while is_blank_or_minus (skipn i_str linebuffer) with
  | None => None
  | Some a =>
      match scan_while (fun c => negb (is_blank_or_minus c))
                       (skipn (i_str + a) linebuffer) with
      | None => None
      | Some b => Some (i_str + a + b)
      end
  end.

(** [sscanf(..., "%le", p)]: [*p] keeps its value on a matching failure. *)
Definition assign_scanned (old : option real) (scanned : option real)
  : option real :=
  match scanned with Some v => Some v | None => old end.

(** The loop [for (i_str = 0, i = 0; i < nl; i++)] (lines 227-237), entered
    with [todo = nl - i]; [row = i_eng * nl]. *)
Fixpoint read_pshift (todo i i_str : nat) (linebuffer : list ascii)
         (row : nat) (ps : list (option real))
  : outcome (list (option real)) :=
  match todo with
  | 0 => Return ps
  | S todo' =>
      let ps' :=
        store (row + i)
              (assign_scanned (nth (row + i) ps None)
                              (sscanf_le (skipn i_str linebuffer))) ps in
      match next_field linebuffer i_str with
      | None => Undefined ReadPastLinebuffer
      | Some i_str' => read_pshift todo' (S i) i_str' linebuffer row ps'
      end
  end.

(** ** The function *)

(** Modelled from the spec: [HART] is a macro of leed_def.h, which is not
    among the sources; the spec and the comments of the function (lines 176
    and 191) give the Hartree energy as 27.18 eV. *)
Definition HART : real := 27.18%Q.

Definition Qltb (x y : Q) : bool := negb (Qle_bool y x).

Definition lift {A : Type} (o : outcome A) : M A := ([], o).

Definition starts_with_slash (s : string) : bool :=
  match s with
  | String c _ => Ascii.eqb c "/"
  | EmptyString => false
  end.

(** Lines 178-192: the energy scale chosen from [eng_type]. *)
Definition eng_scale_of (eng_type : list ascii) : real :=
  if strncmp_eq eng_type (list_ascii_of_string "eV") 2
     || strncmp_eq eng_type (list_ascii_of_string "EV") 2
  then (1 / HART)%Q
  else if strncmp_eq eng_type (list_ascii_of_string "Ry") 2
          || strncmp_eq eng_type (list_ascii_of_string "RY") 2
  then (2 / HART)%Q
  else 1%Q.

Section LeedInpPhase.

(** Macros of leed_def.h the function uses; their values are not among the
    sources. *)
Variable STRSZ : nat.
Variable GEO_TOLERANCE : real.
Variable I_END_OF_LIST : Z.

(** Lines 85-95: the name of the input file. *)
Definition make_filename (w : world) (phaseinp : string) : M string :=
  if negb (starts_with_slash phaseinp) then
    match getenv_CLEED_PHASE w with
    | None =>
        emit (ErrorMsg "environment variable CLEED_PHASE not defined") ;;;
        exit 1
    | Some dir => ret (dir ++ "/" ++ phaseinp ++ ".phs")%string
    end
  else ret phaseinp.

(** The condition of lines 106-109 on a slot. *)
Definition same_dr (d stored : displacement) : bool :=
  Qltb (Qabs (dr_1 d - dr_1 stored)) GEO_TOLERANCE
  && Qltb (Qabs (dr_2 d - dr_2 stored)) GEO_TOLERANCE
  && Qltb (Qabs (dr_3 d - dr_3 stored)) GEO_TOLERANCE.

(** Lines 104-114: [for (i = 0; i < i_phase; i++)], entered with
    [todo = i_phase - i]; [Some i] is [return(i)]. *)
Fixpoint find_phase (filename : string) (d : displacement)
         (todo i : nat) (slots : list leed_phase) : outcome (option nat) :=
  match todo with
  | 0 => Return None
  | S todo' =>
      match nth_error slots i with
      | None => Undefined IndeterminateRead
      | Some p =>
          match input_file p with
          | None => Undefined IndeterminateRead
          | Some f =>
              if String.eqb f filename then
                match dr p with
                | None => Undefined IndeterminateRead
                | Some stored =>
                    if same_dr d stored then Return (Some i)
                    else find_phase filename d todo' (S i) slots
                end
              else find_phase filename d todo' (S i) slots
          end
      end
  end.

(** Line 161: [while( *fgets(linebuffer, STRSZ, inp_stream) == '#');].
    [fuel] bounds the number of lines; the length of the input is enough. *)
Fixpoint skip_comments (fuel : nat) (linebuffer inp : list ascii)
  : outcome (list ascii * list ascii) :=
  match fuel with
  | 0 => Undefined NullDereference
  | S fuel' =>
      match fgets linebuffer STRSZ inp with
      | None => Undefined NullDereference
      | Some (lb, inp') =>
          if Ascii.eqb (hd NUL lb) "#" then skip_comments fuel' lb inp'
          else Return (lb, inp')
      end
  end.

(** Lines 212-223: the energy scanned from the line in [linebuffer] is
    scaled in place, and copied to [eng_min] at index 0 and to [eng_max] at
    every other index. *)
Definition energy_line (eng_scale : real) (i_eng : nat)
           (linebuffer : list ascii) (phs : leed_phase) : leed_phase :=
  let scanned :=
    assign_scanned (nth i_eng (energy phs) None) (sscanf_le linebuffer) in
  let phs1 :=
    set_energy
      (store i_eng (option_map (fun x => (x * eng_scale)%Q) scanned)
             (energy phs)) phs in
  if i_eng =? 0
  then set_eng_min (nth i_eng (energy phs1) None) phs1
  else set_eng_max (nth i_eng (energy phs1) None) phs1.

(** Lines 208-245: the loop over the energies, entered with
    [todo = n_eng - i_eng].  The result is [i_eng] after the loop and the
    slot [phs_shifts] points to. *)
Fixpoint read_energies (eng_scale : real) (nl : nat) (todo i_eng : nat)
         (inp linebuffer : list ascii) (phs : leed_phase)
  : outcome (nat * leed_phase) :=
  match todo with
  | 0 => Return (i_eng, phs)
  | S todo' =>
      match fgets linebuffer STRSZ inp with
      | None => Return (i_eng, phs)
      | Some (lb1, inp1) =>
          let phs2 := energy_line eng_scale i_eng lb1 phs in
          match fgets lb1 STRSZ inp1 with
          | Some (lb2, inp2) =>
              match read_pshift nl 0 0 lb2 (i_eng * nl) (pshift phs2) with
              | Return ps =>
                  read_energies eng_scale nl todo' (S i_eng) inp2 lb2
                                (set_pshift ps phs2)
              | Exit st => Exit st
              | Undefined u => Undefined u
              end
          | None =>
              let phs3 :=
                set_energy (store i_eng (Some 0%Q) (energy phs2)) phs2 in
              match i_eng with
              | 0 => Undefined ReadBeforeEnergy
              | S j => Return (i_eng, set_eng_max (nth j (energy phs3) None) phs3)
              end
          end
      end
  end.

(** The automatic arrays on entry. *)
Definition entry_array (cells : nat -> ascii) : list ascii :=
  map cells (seq 0 STRSZ).

(** Lines 174-278: the energy scale, the two tables, the warning; [n] and
    [l] are the two numbers of the first line and [eng_type] is the array
    after it was scanned. *)
Definition read_tables (filename : string) (n l : Z) (eng_type : list ascii)
           (inp linebuffer : list ascii) (phs : leed_phase) : M leed_phase :=
  if (n <? 0)%Z || (l <? 0)%Z then undefined NegativeCount
  else
    let n_eng := Z.to_nat n in
    let nl := Z.to_nat l + 1 in
    let eng_scale := eng_scale_of eng_type in
    let phs := set_lmax l phs in
    let phs := set_energy (malloc None n_eng) phs in
    let phs := set_pshift (malloc None (n_eng * nl)) phs in
    r <- lift (read_energies eng_scale nl n_eng 0 inp linebuffer phs) ;;
    let (i_eng, phs) := r : nat * leed_phase in
    let phs := set_n_eng i_eng phs in
    (if negb (i_eng =? n_eng)
     then emit (WarningEOF n_eng (i_eng + 1) filename)
     else ret tt) ;;;
    ret phs.

(** Lines 161-172: the first line that is no comment, scanned with
    ["%d %d %s"]; [eng_type] keeps the bytes it had when no third item is
    there. *)
Definition read_header (w : world) (filename : string) (inp : list ascii)
  : M (Z * Z * list ascii * list ascii * list ascii) :=
  r <- lift (skip_comments (List.length inp)
                           (entry_array (linebuffer_entry w)) inp) ;;
  let (linebuffer, inp) := r : list ascii * list ascii in
  match sscanf_d_d_s linebuffer with
  | Hdr0 | Hdr1 _ =>
      emit (ErrorMsg ("improper input line in file " ++ filename)) ;;;
      exit 1
  | Hdr2 n l =>
      ret (n, l, entry_array (eng_type_entry w), inp, linebuffer)
  | Hdr3 n l tok =>
      ret (n, l,
           tok ++ NUL :: skipn (S (List.length tok))
                               (entry_array (eng_type_entry w)),
           inp, linebuffer)
  end.

(** Lines 139-278: a new set of phase shifts is read into the slot [phs]
    (the one [phs_shifts] points to); the result is that slot. *)
Definition read_file (w : world) (filename : string) (phs : leed_phase)
  : M leed_phase :=
  emit (Fopen filename) ;;;
  match files w filename with
  | None => emit (ErrorMsg ("could not open file " ++ filename)) ;;; exit 1
  | Some inp =>
      let phs := set_input_file filename phs in
      hdr <- read_header w filename inp ;;
      let '(n, l, eng_type, inp, linebuffer) :=
        hdr : Z * Z * list ascii * list ascii * list ascii in
      read_tables filename n l eng_type inp linebuffer phs
  end.

(** Lines 97-114: the search among the sets already read. *)
Definition lookup (filename : string) (d : displacement) (st : repository)
  : outcome (option nat) :=
  if 0 <? i_phase st
  then find_phase filename d (i_phase st) 0 (phs_shifts st)
  else Return None.

(** Lines 115-127: one more slot, and the terminator behind it. *)
Definition grow (st : repository) : list leed_phase :=
  let i_phase' := S (i_phase st) in
  let slots :=
    if 0 <? i_phase st
    then realloc fresh_slot (phs_shifts st) (i_phase' + 1)
    else malloc fresh_slot 2 in
  store i_phase' (set_lmax I_END_OF_LIST (nth i_phase' slots fresh_slot)) slots.

(** Lines 97-278, for the file name made on lines 85-95.  Line 130 takes the
    slot to fill as [&p_phs_shifts[i_phase-1]]; it is read as slot
    [i_phase - 1] of the array [*p_phs_shifts], the array lines 106 and 127
    address. *)
Definition phase_of_file (w : world) (filename : string) (d : displacement)
           (st : repository) : M (nat * repository) :=
  hit <- lift (lookup filename d st) ;;
  match hit with
  | Some i => ret (i, st)
  | None =>
      let i_phase' := S (i_phase st) in
      let slots := grow st in
      let phs := set_dr d (nth (i_phase' - 1) slots fresh_slot) in
      phs <- read_file w filename phs ;;
      ret (i_phase' - 1, mk_repo i_phase' (store (i_phase' - 1) phs slots))
  end.

(** [leed_inp_phase(phaseinp, dr, p_phs_shifts)]: the value returned and the
    list after the call. *)
Definition leed_inp_phase (w : world) (phaseinp : string) (d : displacement)
           (st : repository) : M (nat * repository) :=
  filename <- make_filename w phaseinp ;;
  phase_of_file w filename d st.

End LeedInpPhase.

(** ** Notions the statements use *)

(** Two displacements agree within the tolerance on the cells 1, 2 and 3. *)
Definition within_tolerance (tol : real) (d stored : displacement) : Prop :=
  (Qabs (dr_1 d - dr_1 stored) < tol
   /\ Qabs (dr_2 d - dr_2 stored) < tol
   /\ Qabs (dr_3 d - dr_3 stored) < tol)%Q.


(** The slot answers the request: same file name, displacement in reach. *)
Definition matches (tol : real) (filename : string) (d : displacement)
           (p : leed_phase) : bool :=
  match input_file p, dr p with
  | Some f, Some stored => String.eqb f filename && same_dr tol d stored
  | _, _ => false
  end.

(** Slot [k] is the first one, in the order of insertion, that answers. *)
Definition first_match (tol : real) (filename : string) (d : displacement)
           (slots : list leed_phase) (k : nat) : Prop :=
  (exists p, nth_error slots k = Some p /\ matches tol filename d p = true)
  /\ forall j p, j < k -> nth_error slots j = Some p ->
                 matches tol filename d p = false.

(** The search can inspect the slot: its file name is set, and so is its
    displacement when the name is the one looked for. *)
Definition scannable (filename : string) (p : leed_phase) : Prop :=
  exists f, input_file p = Some f
            /\ (f = filename -> exists stored, dr p = Some stored).



(** [l] is one line of the file that [fgets] takes whole when it has room
    for [room] characters: it ends at its only newline. *)
Fixpoint one_line (room : nat) (l : list ascii) : bool :=
  match room, l with
  | S _, [c] => Ascii.eqb c LF
  | S r, c :: t => negb (Ascii.eqb c LF) && one_line r t
  | _, _ => false
  end.

(** The loop of lines 227-237 seen from the cell [linebuffer + i_str]. *)
Fixpoint read_fields (todo i : nat) (cells : list ascii) (row : nat)
         (ps : list (option real)) : outcome (list (option real)) :=
  match todo with
  | 0 => Return ps
  | S todo' =>
      let ps' :=
        store (row + i)
              (assign_scanned (nth (row + i) ps None) (sscanf_le cells)) ps in
      match scan_while is_blank_or_minus cells with
      | None => Undefined ReadPastLinebuffer
      | Some a =>
          match scan_while (fun c => negb (is_blank_or_minus c))
                           (skipn a cells) with
          | None => Undefined ReadPastLinebuffer
          | Some b => read_fields todo' (S i) (skipn (a + b) cells) row ps'
          end
      end
  end.

(** The cells hold [todo] fields, each followed by a blank or a minus: the
    two [while] loops stop inside them [todo] times. *)
Fixpoint fields_in (todo : nat) (cells : list ascii) : bool :=
  match todo with
  | 0 => true
  | S todo' =>
      match scan_while is_blank_or_minus cells with
      | None => false
      | Some a =>
          match scan_while (fun c => negb (is_blank_or_minus c))
                           (skipn a cells) with
          | None => false
          | Some b => fields_in todo' (skipn (a + b) cells)
          end
      end
  end.

(** A character that cannot continue a number written with digits and a
    point: no digit, and no letter that opens an exponent. *)
Definition ends_number (c : ascii) : bool :=
  negb (isdigit c) && negb (Ascii.eqb c "e") && negb (Ascii.eqb c "E").

(** The sign in front of a number: a minus or nothing. *)
Definition sign_of (neg : bool) : list ascii :=
  if neg then ["-"%char] else [].

(** A number in fixed notation: sign, digits, point, digits. *)
Definition fixed (neg : bool) (ip fp : list ascii) : list ascii :=
  sign_of neg ++ ip ++ "."%char :: fp.

(** The token begins with the characters of [pre]. *)
Fixpoint begins (pre tok : list ascii) : bool :=
  match pre, tok with
  | [], _ => true
  | _ :: _, [] => false
  | c :: pre', d :: tok' => Ascii.eqb d c && begins pre' tok'
  end.

(** The scale of the claim as the spec words it: the first two characters
    of the unit token compared without regard to case. *)
Definition lower (c : ascii) : ascii :=
  let n := nat_of_ascii c in
  if (65 <=? n) && (n <=? 90) then ascii_of_nat (n + 32) else c.

Definition scale_without_case (tok : list ascii) : real :=
  if begins (list_ascii_of_string "ev") (map lower tok) then (1 / HART)%Q
  else if begins (list_ascii_of_string "ry") (map lower tok) then (2 / HART)%Q
  else 1%Q.

(** The two numbers of a first line that [sscanf] scanned far enough. *)
Definition declared (h : header) : option (Z * Z) :=
  match h with
  | Hdr2 n l | Hdr3 n l _ => Some (n, l)
  | _ => None
  end.

(** A comment line: one line that begins with [#]. *)
Definition comment_line (room : nat) (c : list ascii) : bool :=
  one_line room c && Ascii.eqb (hd NUL c) "#".

(** The first line that is no comment. *)
Definition first_line (room : nat) (h : list ascii) : bool :=
  one_line room h && negb (Ascii.eqb (hd NUL h) "#").

(** A complete pair: the line of the energy, and the line of the phase
    shifts with [nl] fields in it. *)
Definition complete_pair (room nl : nat) (ep : list ascii * list ascii)
  : bool :=
  one_line room (fst ep) && one_line room (snd ep) && fields_in nl (snd ep).

(** The lines of the pairs as they stand in the file. *)
Definition lines_of (pairs : list (list ascii * list ascii)) : list ascii :=
  flat_map (fun ep => fst ep ++ snd ep) pairs.

(** The input after its first line, and line number [k] of the input
    (from 0), as [fgets] divides it. *)
Definition drop_line (STRSZ : nat) (inp : list ascii) : list ascii :=
  snd (take_line (STRSZ - 1) inp).

Definition line_at (STRSZ k : nat) (inp : list ascii) : list ascii :=
  fst (take_line (STRSZ - 1) (Nat.iter k (drop_line STRSZ) inp)).

(** The energy a line gives, scaled. *)
Definition scaled_energy (eng_scale : real) (e : list ascii) : option real :=
  option_map (fun x => (x * eng_scale)%Q) (scan_le (cstr e)).

(** The scale the function takes for a unit token. *)
Definition scale_of_token (tok : list ascii) : real :=
  if begins (list_ascii_of_string "eV") tok
     || begins (list_ascii_of_string "EV") tok
  then (1 / HART)%Q
  else if begins (list_ascii_of_string "Ry") tok
          || begins (list_ascii_of_string "RY") tok
  then (2 / HART)%Q
  else 1%Q.

(** ** A small world for the examples *)

(** Each line of phase shifts holds a third value, for l = 2, which
    [lmax = 1] leaves unread. *)
Definition cu_file : list ascii :=
  list_ascii_of_string
    "# Cu, two energies
2 1 eV
 27.18
 0.1000-0.2000 0.0300
 54.36
 1.2345-2.3456 0.0400
".

(** A file that ends after its first energy. *)
Definition short_file : list ascii :=
  list_ascii_of_string
    "1 0
 27.18
".

(** A file that declares three energies and ends after the second pair of
    lines; the energies fall. *)
Definition cut_file : list ascii :=
  list_ascii_of_string
    "# Ni, cut short
3 1 eV
 54.36
 0.1000-0.2000 0.0300
 27.18
 1.2345-2.3456 0.0400
".

(** A file with the unit in small letters. *)
Definition small_unit_file : list ascii :=
  list_ascii_of_string
    "1 0 ev
 27.18
 0.5000 0.1000
".

Definition disk (f : string) : option (list ascii) :=
  if String.eqb f "/phs/cu.phs" then Some cu_file
  else if String.eqb f "/phs/h.phs" then Some short_file
  else if String.eqb f "/phs/ni.phs" then Some cut_file
  else if String.eqb f "/phs/ag.phs" then Some small_unit_file
  else None.

(** [CLEED_PHASE] is [/phs], and the automatic arrays hold blanks on
    entry. *)
Definition cu_world : world :=
  mk_world (Some "/phs"%string) disk (fun _ => " "%char) (fun _ => " "%char).


(** The function with values for the three macros. *)
Definition call : world -> string -> displacement -> repository
                  -> M (nat * repository) :=
  leed_inp_phase 256 0.0001 (-9999).

Definition at_rest : displacement := mk_dr 0 0 0 0.

(** The list after a call that returned (the empty list otherwise). *)
Definition list_after (m : M (nat * repository)) : repository :=
  match m with
  | (_, Return (_, st)) => st
  | _ => empty_repository
  end.

(** The slot a reading filled (an indeterminate one otherwise). *)
Definition slot_read (m : M leed_phase) : leed_phase :=
  match m with
  | (_, Return p) => p
  | _ => fresh_slot
  end.


(** ** The lists the function builds *)





(** The list after [cu] was asked for, and after [ni] was asked for next. *)
Definition cu_list : repository :=
  list_after (call cu_world "cu" at_rest empty_repository).


(** More files: one of comment lines only, one that declares no energy, one
    without a unit on its first line, and one with a comment line where an
    energy is expected. *)
Definition notes_file : list ascii :=
  list_ascii_of_string
    "# no data yet
# to be computed
".

Definition none_file : list ascii :=
  list_ascii_of_string
    "0 2 eV
 27.18
".

Definition bare_file : list ascii :=
  list_ascii_of_string
    "1 0
 27.18
 0.5000 0.1000
".

Definition marked_file : list ascii :=
  list_ascii_of_string
    "2 0 eV
 27.18
 0.5000 0.1000
# second energy
 0.6000 0.1000
".

Definition shelf (f : string) : option (list ascii) :=
  if String.eqb f "/phs/notes.phs" then Some notes_file
  else if String.eqb f "/phs/none.phs" then Some none_file
  else if String.eqb f "/phs/bare.phs" then Some bare_file
  else if String.eqb f "/phs/marked.phs" then Some marked_file
  else disk f.

Definition shelf_world : world :=
  mk_world (Some "/phs"%string) shelf (fun _ => " "%char) (fun _ => " "%char).

(** The same, entered with the bytes [eV] at the start of [eng_type]. *)
Definition stale_world : world :=
  mk_world (Some "/phs"%string) shelf (fun _ => " "%char)
           (fun i => if i =? 0 then "e"%char
                     else if i =? 1 then "V"%char else NUL).

(** ** Lines of packed numbers *)

(** A number as a line of phase shifts holds it: the blanks in front of it,
    its sign, its digits before and after the point. *)
Record packed : Type := mk_packed {
  p_lead : list ascii;
  p_neg : bool;
  p_ip : list ascii;
  p_fp : list ascii }.

Definition packed_text (x : packed) : list ascii :=
  p_lead x ++ fixed (p_neg x) (p_ip x) (p_fp x).

Definition packed_value (x : packed) : real :=
  dec_value (p_neg x) (p_ip x) (p_fp x) 0.

Definition is_nil {A : Type} (l : list A) : bool :=
  match l with [] => true | _ :: _ => false end.

Definition packed_ok (x : packed) : bool :=
  forallb (fun c => Ascii.eqb c " ") (p_lead x)
  && forallb isdigit (p_ip x) && forallb isdigit (p_fp x)
  && negb (is_nil (p_ip x ++ p_fp x)).

(** The number is set off from the one before it, by a blank or by its
    minus. *)
Definition set_off (x : packed) : bool :=
  negb (is_nil (p_lead x)) || p_neg x.

(** The sets read from three of the files, and what [read_header] returns
    for the first of them. *)
Definition ni_set : leed_phase :=
  slot_read (read_file 256 cu_world "/phs/ni.phs" fresh_slot).

Definition marked_set : leed_phase :=
  slot_read (read_file 256 shelf_world "/phs/marked.phs" fresh_slot).

Definition bare_set (w : world) : leed_phase :=
  slot_read (read_file 256 w "/phs/bare.phs" fresh_slot).

Definition first_line_read
           (m : M (Z * Z * list ascii * list ascii * list ascii))
  : list ascii * list ascii * list ascii :=
  match m with
  | (_, Return (_, _, eng_type, body, linebuffer)) =>
      (eng_type, body, linebuffer)
  | _ => ([], [], [])
  end.

Definition cu_eng_type : list ascii :=
  fst (fst (first_line_read (read_header 256 cu_world "/phs/cu.phs" cu_file))).

Definition cu_body : list ascii :=
  snd (fst (first_line_read (read_header 256 cu_world "/phs/cu.phs" cu_file))).

Definition cu_linebuffer : list ascii :=
  snd (first_line_read (read_header 256 cu_world "/phs/cu.phs" cu_file)).

(** * Properties *)

(** ** Computations *)

Lemma bind_ret {A B : Type} (a : A) (k : A -> M B) : bind (ret a) k = k a.
Proof. unfold bind, ret. destruct (k a) as [tr o]. reflexivity. Qed.

Lemma bind_lift_Return {A B : Type} (a : A) (k : A -> M B) :
  bind (lift (Return a)) k = k a.
Proof. apply bind_ret. Qed.

Lemma bind_Return_inv {A B : Type} (m : M A) (k : A -> M B) tr b :
  bind m k = (tr, Return b) ->
  exists tr1 a tr2,
    m = (tr1, Return a) /\ k a = (tr2, Return b) /\ tr = tr1 ++ tr2.
Proof.
  destruct m as [tr1 [a | s | u]]; simpl; try discriminate.
  destruct (k a) as [tr2 o] eqn:Hk. intros H. inversion H; subst.
  exists tr1, a, tr2. auto.
Qed.

Lemma bind_Return_intro {A B : Type} (m : M A) (k : A -> M B) tr1 a tr2 o :
  m = (tr1, Return a) -> k a = (tr2, o) -> bind m k = (tr1 ++ tr2, o).
Proof. intros -> Hk. simpl. rewrite Hk. reflexivity. Qed.

Lemma lift_inv {A : Type} (o : outcome A) tr o' :
  lift o = (tr, o') -> tr = [] /\ o' = o.
Proof. unfold lift. intros H. inversion H. auto. Qed.

(** ** Arrays *)

Lemma store_length {A : Type} (i : nat) (v : A) (l : list A) :
  List.length (store i v l) = List.length l.
Proof.
  revert i. induction l as [| x t IH]; intros [| j]; simpl; auto.
Qed.

Lemma nth_error_store_same {A : Type} (i : nat) (v : A) (l : list A) :
  i < List.length l -> nth_error (store i v l) i = Some v.
Proof.
  revert i. induction l as [| x t IH]; intros [| j] H; simpl in *;
    try lia; auto. apply IH. lia.
Qed.

Lemma nth_error_store_other {A : Type} (i j : nat) (v : A) (l : list A) :
  i <> j -> nth_error (store i v l) j = nth_error l j.
Proof.
  revert i j. induction l as [| x t IH]; intros [| i] [| j] H; simpl;
    try congruence; auto.
Qed.

Lemma nth_store_same {A : Type} (i : nat) (v dflt : A) (l : list A) :
  i < List.length l -> nth i (store i v l) dflt = v.
Proof.
  intros H. apply nth_error_nth. apply nth_error_store_same. exact H.
Qed.

Lemma nth_store_other {A : Type} (i j : nat) (v dflt : A) (l : list A) :
  i <> j -> nth j (store i v l) dflt = nth j l dflt.
Proof.
  revert i j. induction l as [| x t IH]; intros [| i] [| j] H; simpl;
    try congruence; auto.
Qed.

Lemma realloc_length {A : Type} (u : A) (l : list A) (n : nat) :
  List.length (realloc u l n) = n.
Proof.
  unfold realloc. rewrite length_app, length_firstn, repeat_length. lia.
Qed.

Lemma realloc_keeps {A : Type} (u : A) (l : list A) (n i : nat) :
  i < n -> i < List.length l ->
  nth_error (realloc u l n) i = nth_error l i.
Proof.
  intros Hn Hl. unfold realloc.
  rewrite nth_error_app1 by (rewrite length_firstn; lia).
  rewrite nth_error_firstn.
  destruct (i <? n) eqn:E; auto. apply Nat.ltb_ge in E. lia.
Qed.

(** ** The comparison of displacements *)

Lemma Qltb_lt (x y : Q) : Qltb x y = true <-> (x < y)%Q.
Proof.
  unfold Qltb. rewrite negb_true_iff. split.
  - intros H. apply Qnot_le_lt. intros Hle.
    apply Qle_bool_iff in Hle. congruence.
  - intros H. destruct (Qle_bool y x) eqn:E; auto.
    apply Qle_bool_iff in E. exfalso. exact (Qlt_not_le _ _ H E).
Qed.

Lemma same_dr_within (tol : real) (d stored : displacement) :
  same_dr tol d stored = true <-> within_tolerance tol d stored.
Proof.
  unfold same_dr, within_tolerance.
  rewrite !andb_true_iff, !Qltb_lt. tauto.
Qed.


(** ** The search among the sets already read *)

Section Search.

Variable tol : real.
Variable filename : string.

Lemma find_phase_step (d : displacement) (todo i : nat)
      (slots : list leed_phase) (p : leed_phase) :
  nth_error slots i = Some p -> scannable filename p ->
  find_phase tol filename d (S todo) i slots =
  if matches tol filename d p then Return (Some i)
  else find_phase tol filename d todo (S i) slots.
Proof.
  intros Hn (f & Hf & Hdr). simpl. rewrite Hn, Hf. unfold matches. rewrite Hf.
  destruct (String.eqb f filename) eqn:E.
  - apply String.eqb_eq in E. destruct (Hdr E) as (s & Hs). rewrite Hs.
    reflexivity.
  - destruct (dr p); reflexivity.
Qed.

Lemma find_phase_scannable (d : displacement) (todo i : nat)
      (slots : list leed_phase) (r : option nat) :
  find_phase tol filename d (S todo) i slots = Return r ->
  exists p, nth_error slots i = Some p /\ scannable filename p.
Proof.
  simpl. destruct (nth_error slots i) as [p |]; try discriminate.
  intros H. exists p. split; auto. unfold scannable.
  destruct (input_file p) as [f |]; try discriminate.
  exists f. split; auto. intros ->. rewrite String.eqb_refl in H.
  destruct (dr p) as [s |]; try discriminate. eauto.
Qed.

Lemma find_phase_None (d : displacement) (todo : nat) :
  forall i slots,
    find_phase tol filename d todo i slots = Return None ->
    forall j, i <= j < i + todo ->
      exists p, nth_error slots j = Some p /\ scannable filename p
                /\ matches tol filename d p = false.
Proof.
  induction todo as [| todo IH]; intros i slots H j Hj; [lia |].
  destruct (find_phase_scannable _ _ _ _ _ H) as (p & Hn & Hs).
  rewrite (find_phase_step _ _ _ _ _ Hn Hs) in H.
  destruct (matches tol filename d p) eqn:Em; try discriminate.
  destruct (Nat.eq_dec j i) as [-> | Hne].
  - exists p. auto.
  - apply (IH (S i) slots H). lia.
Qed.

Lemma find_phase_Some (d : displacement) (todo : nat) :
  forall i slots k,
    find_phase tol filename d todo i slots = Return (Some k) ->
    i <= k < i + todo
    /\ (exists p, nth_error slots k = Some p
                  /\ matches tol filename d p = true)
    /\ forall j, i <= j < k ->
         exists p, nth_error slots j = Some p /\ scannable filename p
                   /\ matches tol filename d p = false.
Proof.
  induction todo as [| todo IH]; intros i slots k H; [discriminate |].
  destruct (find_phase_scannable _ _ _ _ _ H) as (p & Hn & Hs).
  rewrite (find_phase_step _ _ _ _ _ Hn Hs) in H.
  destruct (matches tol filename d p) eqn:Em.
  - inversion H; subst k. split; [lia |]. split; [eauto |]. intros j Hj. lia.
  - destruct (IH _ _ _ H) as (Hk & Hm & Hbefore).
    split; [lia |]. split; [exact Hm |]. intros j Hj.
    destruct (Nat.eq_dec j i) as [-> | Hne]; [eauto |].
    apply Hbefore. lia.
Qed.

Lemma find_phase_finds (d : displacement) (todo : nat) :
  forall i slots k,
    i <= k < i + todo ->
    (forall j, i <= j < k ->
       exists p, nth_error slots j = Some p /\ scannable filename p) ->
    (exists p, nth_error slots k = Some p /\ scannable filename p
               /\ matches tol filename d p = true) ->
    exists k',
      find_phase tol filename d todo i slots = Return (Some k')
      /\ i <= k' <= k
      /\ (exists p, nth_error slots k' = Some p
                    /\ matches tol filename d p = true)
      /\ forall j p, i <= j < k' -> nth_error slots j = Some p ->
                     matches tol filename d p = false.
Proof.
  induction todo as [| todo IH]; intros i slots k Hk Hbefore Hat; [lia |].
  destruct (Nat.eq_dec k i) as [-> | Hne].
  - destruct Hat as (p & Hn & Hs & Hm).
    rewrite (find_phase_step _ _ _ _ _ Hn Hs), Hm.
    exists i. split; [reflexivity |]. split; [lia |]. split; [eauto |].
    intros j q Hj. lia.
  - destruct (Hbefore i) as (p & Hn & Hs); [lia |].
    rewrite (find_phase_step _ _ _ _ _ Hn Hs).
    destruct (matches tol filename d p) eqn:Em.
    + exists i. split; [reflexivity |]. split; [lia |]. split; [eauto |].
      intros j q Hj. lia.
    + destruct (IH (S i) slots k) as (k' & Hf & Hle & Hm & Hfirst).
      * lia.
      * intros j Hj. apply Hbefore. lia.
      * exact Hat.
      * exists k'. split; [exact Hf |]. split; [lia |]. split; [exact Hm |].
        intros j q Hj Hq. destruct (Nat.eq_dec j i) as [-> | Hji].
        -- congruence.
        -- apply (Hfirst j q); [lia | exact Hq].
Qed.


End Search.

(** ** What reading a file leaves alone *)

Section Reading.

Variable STRSZ : nat.

Lemma read_energies_keeps (eng_scale : real) (nl todo : nat) :
  forall i_eng inp linebuffer phs i' phs',
    read_energies STRSZ eng_scale nl todo i_eng inp linebuffer phs
    = Return (i', phs') ->
    dr phs' = dr phs /\ input_file phs' = input_file phs
    /\ lmax phs' = lmax phs /\ n_eng phs' = n_eng phs.
Proof.
  induction todo as [| todo IH]; intros i_eng inp lb phs i' phs' H; simpl in H.
  - inversion H; subst. auto.
  - destruct (fgets lb STRSZ inp) as [[lb1 inp1] |].
    2:{ inversion H; subst. auto. }
    destruct (fgets lb1 STRSZ inp1) as [[lb2 inp2] |].
    + destruct (read_pshift nl 0 0 lb2 (i_eng * nl) _) as [ps | |];
        try discriminate.
      apply IH in H. destruct H as (H1 & H2 & H3 & H4).
      rewrite H1, H2, H3, H4. unfold energy_line.
      destruct (i_eng =? 0); simpl; auto.
    + destruct i_eng as [| j]; try discriminate.
      inversion H; subst. simpl. auto.
Qed.



Lemma read_tables_fields (f : string) n l eng_type inp lb (phs : leed_phase) tr phs' :
  read_tables STRSZ f n l eng_type inp lb phs = (tr, Return phs') ->
  dr phs' = dr phs /\ input_file phs' = input_file phs /\ lmax phs' = Some l.
Proof.
  unfold read_tables. intros H.
  destruct ((n <? 0)%Z || (l <? 0)%Z); [discriminate |].
  apply bind_Return_inv in H. destruct H as (tr6 & [i_eng q] & tr7 & H3 & H & ->).
  apply lift_inv in H3. destruct H3 as [-> H3]. symmetry in H3.
  apply read_energies_keeps in H3. destruct H3 as (Hd & Hf & Hl & _).
  apply bind_Return_inv in H. destruct H as (tr8 & [] & tr9 & _ & H & ->).
  inversion H; subst. simpl. rewrite Hd, Hf, Hl. simpl. auto.
Qed.


Lemma read_file_fields (w : world) (f : string) (phs : leed_phase) tr phs' :
  read_file STRSZ w f phs = (tr, Return phs') ->
  dr phs' = dr phs /\ input_file phs' = Some f
  /\ exists tr', tr = Fopen f :: tr'.
Proof.
  unfold read_file. intros H.
  apply bind_Return_inv in H. destruct H as (tr1 & [] & tr2 & H1 & H & ->).
  inversion H1; subst tr1. clear H1.
  destruct (files w f) as [inp |].
  2:{ apply bind_Return_inv in H. destruct H as (? & ? & ? & _ & H & _). discriminate. }
  apply bind_Return_inv in H.
  destruct H as (tr1 & [[[[n l] eng_type] inp1] lb] & tr3 & H1 & H & ->).
  apply read_tables_fields in H. destruct H as (Hd & Hf & _).
  rewrite Hd, Hf. simpl. eauto.
Qed.

End Reading.

(** ** The list of sets: lookup, growth, terminator *)

Section List_of_sets.

Variable STRSZ : nat.
Variable tol : real.
Variable IEND : Z.

Lemma grow_length (st : repository) :
  List.length (grow IEND st) = i_phase st + 2.
Proof.
  unfold grow. rewrite store_length.
  destruct (0 <? i_phase st) eqn:E.
  - rewrite realloc_length. lia.
  - apply Nat.ltb_ge in E. unfold malloc. rewrite repeat_length. lia.
Qed.

Lemma grow_first_call (st : repository) :
  i_phase st = 0 -> List.length (grow IEND st) = 2.
Proof. intros H. rewrite grow_length, H. reflexivity. Qed.

Lemma grow_keeps (st : repository) (i : nat) :
  i < i_phase st -> i < List.length (phs_shifts st) ->
  nth_error (grow IEND st) i = nth_error (phs_shifts st) i.
Proof.
  intros Hi Hl. unfold grow.
  rewrite nth_error_store_other by lia.
  destruct (0 <? i_phase st) eqn:E.
  - apply realloc_keeps; lia.
  - apply Nat.ltb_ge in E. lia.
Qed.

Lemma grow_terminator (st : repository) :
  exists s, nth_error (grow IEND st) (S (i_phase st)) = Some s
            /\ lmax s = Some IEND.
Proof.
  unfold grow. eexists. split.
  - apply nth_error_store_same.
    destruct (0 <? i_phase st) eqn:E.
    + rewrite realloc_length. lia.
    + apply Nat.ltb_ge in E. unfold malloc. rewrite repeat_length. lia.
  - reflexivity.
Qed.

Lemma lookup_None (filename : string) (d : displacement) (st : repository) :
  lookup tol filename d st = Return None ->
  forall j, j < i_phase st ->
    exists p, nth_error (phs_shifts st) j = Some p /\ scannable filename p
              /\ matches tol filename d p = false.
Proof.
  unfold lookup. intros H j Hj.
  destruct (0 <? i_phase st) eqn:E.
  - apply (find_phase_None _ _ _ _ _ _ H). lia.
  - apply Nat.ltb_ge in E. lia.
Qed.

Lemma lookup_Some (filename : string) (d : displacement) (st : repository)
      (k : nat) :
  lookup tol filename d st = Return (Some k) ->
  k < i_phase st
  /\ (exists p, nth_error (phs_shifts st) k = Some p
                /\ matches tol filename d p = true)
  /\ forall j, j < k ->
       exists p, nth_error (phs_shifts st) j = Some p
                 /\ scannable filename p.
Proof.
  unfold lookup. intros H.
  destruct (0 <? i_phase st); [| discriminate].
  destruct (find_phase_Some _ _ _ _ _ _ _ H) as (Hk & Hm & Hb).
  split; [lia |]. split; [exact Hm |].
  intros j Hj. destruct (Hb j) as (p & Hn & Hs & _); [lia | eauto].
Qed.

Lemma lookup_finds (filename : string) (d : displacement) (st : repository)
      (k : nat) (p : leed_phase) :
  k < i_phase st ->
  (forall j, j < k ->
     exists q, nth_error (phs_shifts st) j = Some q /\ scannable filename q) ->
  nth_error (phs_shifts st) k = Some p ->
  matches tol filename d p = true ->
  exists k', lookup tol filename d st = Return (Some k')
             /\ k' <= k /\ first_match tol filename d (phs_shifts st) k'.
Proof.
  intros Hk Hb Hn Hm. unfold lookup.
  destruct (0 <? i_phase st) eqn:E; [| apply Nat.ltb_ge in E; lia].
  destruct (find_phase_finds tol filename d (i_phase st) 0 (phs_shifts st) k)
    as (k' & Hf & Hle & Hat & Hfirst).
  - lia.
  - intros j Hj. apply Hb. lia.
  - exists p. split; [exact Hn |]. split; [| exact Hm].
    unfold matches in Hm. unfold scannable.
    destruct (input_file p) as [f |]; [| discriminate].
    destruct (dr p) as [s |]; [| discriminate]. eauto.
  - exists k'. split; [exact Hf |]. split; [lia |]. split; [exact Hat |].
    intros j q Hj. apply Hfirst. lia.
Qed.


(** A call that returns either found slot [idx] and changed nothing, or
    read the file into slot [i_phase] of the grown list. *)
Lemma phase_of_file_Return (w : world) (filename : string) (d : displacement)
      (st : repository) tr idx st' :
  phase_of_file STRSZ tol IEND w filename d st = (tr, Return (idx, st')) ->
  (lookup tol filename d st = Return (Some idx) /\ st' = st /\ tr = [])
  \/ (lookup tol filename d st = Return None /\ idx = i_phase st
      /\ exists phs,
           read_file STRSZ w filename
                     (set_dr d (nth (i_phase st) (grow IEND st) fresh_slot))
           = (tr, Return phs)
           /\ st' = mk_repo (S (i_phase st))
                            (store (i_phase st) phs (grow IEND st))).
Proof.
  unfold phase_of_file. intros H.
  destruct (lookup tol filename d st) as [[k |] | |]; try discriminate.
  - left. rewrite bind_lift_Return in H. inversion H; subst. auto.
  - right. rewrite bind_lift_Return in H.
    replace (S (i_phase st) - 1) with (i_phase st) in H by lia.
    apply bind_Return_inv in H. destruct H as (tr1 & phs & tr2 & H1 & H2 & ->).
    inversion H2; subst. rewrite app_nil_r. eauto.
Qed.

Lemma phase_of_file_hit (w : world) (filename : string) (d : displacement)
      (st : repository) (k : nat) :
  lookup tol filename d st = Return (Some k) ->
  phase_of_file STRSZ tol IEND w filename d st = ([], Return (k, st)).
Proof. intros H. unfold phase_of_file. rewrite H. reflexivity. Qed.

Lemma phase_of_file_miss (w : world) (filename : string) (d : displacement)
      (st : repository) tr phs :
  lookup tol filename d st = Return None ->
  read_file STRSZ w filename
            (set_dr d (nth (i_phase st) (grow IEND st) fresh_slot))
  = (tr, Return phs) ->
  phase_of_file STRSZ tol IEND w filename d st
  = (tr, Return (i_phase st,
                 mk_repo (S (i_phase st))
                         (store (i_phase st) phs (grow IEND st)))).
Proof.
  intros Hl Hr. unfold phase_of_file. rewrite Hl, bind_lift_Return.
  replace (S (i_phase st) - 1) with (i_phase st) by lia.
  rewrite Hr. simpl. rewrite app_nil_r. reflexivity.
Qed.

Lemma make_filename_absolute (w : world) (phaseinp : string) :
  starts_with_slash phaseinp = true -> make_filename w phaseinp = ret phaseinp.
Proof. intros H. unfold make_filename. rewrite H. reflexivity. Qed.

Lemma leed_inp_phase_absolute (w : world) (phaseinp : string)
      (d : displacement) (st : repository) :
  starts_with_slash phaseinp = true ->
  leed_inp_phase STRSZ tol IEND w phaseinp d st
  = phase_of_file STRSZ tol IEND w phaseinp d st.
Proof.
  intros H. unfold leed_inp_phase.
  rewrite (make_filename_absolute w phaseinp H), bind_ret. reflexivity.
Qed.

Lemma leed_inp_phase_Return (w : world) (phaseinp : string)
      (d : displacement) (st : repository) tr r :
  leed_inp_phase STRSZ tol IEND w phaseinp d st = (tr, Return r) ->
  exists filename,
    make_filename w phaseinp = ret filename
    /\ phase_of_file STRSZ tol IEND w filename d st = (tr, Return r).
Proof.
  unfold leed_inp_phase, make_filename. intros H.
  destruct (negb (starts_with_slash phaseinp)).
  - destruct (getenv_CLEED_PHASE w) as [dir |]; [| discriminate].
    rewrite bind_ret in H. eauto.
  - rewrite bind_ret in H. eauto.
Qed.


End List_of_sets.

(** ** The file name (lines 85-95) *)



(** ** The list only grows (lines 97-133 and 278) *)



(** C9.  After a call that appended a set, the array has [i_phase + 1]
    slots for the new [i_phase] (two after the first call), and the slot at
    index [i_phase], behind the last set, has [lmax = I_END_OF_LIST]. *)
Theorem C9_terminator (STRSZ : nat) (tol : real) (IEND : Z) (w : world)
        (phaseinp : string) (d : displacement) (st st' : repository)
        (tr : list event) (idx : nat) :
  leed_inp_phase STRSZ tol IEND w phaseinp d st = (tr, Return (idx, st')) ->
  i_phase st' = S (i_phase st) ->
  List.length (phs_shifts st') = i_phase st' + 1
  /\ (i_phase st = 0 -> List.length (phs_shifts st') = 2)
  /\ exists s, nth_error (phs_shifts st') (i_phase st') = Some s
               /\ lmax s = Some IEND.
Proof.
  intros H Hgrown. apply leed_inp_phase_Return in H.
  destruct H as (f & _ & H). apply phase_of_file_Return in H.
  destruct H as [(_ & -> & _) | (_ & _ & phs & _ & ->)]; [lia |].
  cbn [phs_shifts i_phase]. rewrite store_length, grow_length.
  split; [lia |]. split; [lia |].
  rewrite nth_error_store_other by lia. apply grow_terminator.
Qed.

Lemma C9_terminator_witness :
  exists s,
    nth_error (phs_shifts (list_after (call cu_world "cu" at_rest
                                            empty_repository))) 1
    = Some s /\ lmax s = Some (-9999)%Z.
Proof.
  refine (proj2 (proj2 (C9_terminator 256 0.0001 (-9999) cu_world "cu" at_rest
                          empty_repository
                          (list_after (call cu_world "cu" at_rest
                                            empty_repository))
                          [Fopen "/phs/cu.phs"] 0 _ _))).
  - vm_compute. reflexivity.
  - vm_compute. reflexivity.
Defined.

(** ** Asking again (lines 97-114) *)

(** After a call that returned [k], slot [k] holds the file name of the
    call and a displacement, and the search can inspect the slots before
    it. *)
Lemma returned_slot (STRSZ : nat) (tol : real) (IEND : Z) (w : world)
      (filename : string) (d : displacement) (st st1 : repository)
      (tr : list event) (k : nat) :
  phase_of_file STRSZ tol IEND w filename d st = (tr, Return (k, st1)) ->
  k < i_phase st1
  /\ (forall j, j < k ->
        exists q, nth_error (phs_shifts st1) j = Some q
                  /\ scannable filename q)
  /\ exists p, nth_error (phs_shifts st1) k = Some p
               /\ input_file p = Some filename.
Proof.
  intros H. apply phase_of_file_Return in H.
  destruct H as [(Hl & -> & _) | (Hl & -> & phs & Hr & ->)].
  - destruct (lookup_Some _ _ _ _ _ Hl) as (Hk & (p & Hn & Hm) & Hb).
    split; [exact Hk |]. split; [exact Hb |].
    exists p. split; [exact Hn |]. unfold matches in Hm.
    destruct (input_file p) as [f |]; [| discriminate].
    destruct (dr p); [| discriminate].
    apply andb_true_iff in Hm. destruct Hm as [Hm _].
    apply String.eqb_eq in Hm. congruence.
  - cbn [i_phase phs_shifts]. split; [lia |]. split.
    + intros j Hj. rewrite nth_error_store_other by lia.
      destruct (lookup_None _ _ _ _ Hl j Hj) as (p & Hn & Hs & _).
      exists p. split; [| exact Hs]. rewrite <- Hn.
      apply grow_keeps; [exact Hj |]. apply nth_error_Some. congruence.
    + exists phs. split.
      * apply nth_error_store_same. rewrite grow_length. lia.
      * apply read_file_fields in Hr. tauto.
Qed.




(** On a list that was empty the first answer is slot 0, and asking again
    within the tolerance of the first displacement returns 0 without
    reading. *)
Lemma asking_twice_from_empty (STRSZ : nat) (tol : real) (IEND : Z)
      (w : world) (p : string) (d d2 : displacement) (st1 : repository)
      (tr : list event) (k : nat) :
  starts_with_slash p = true ->
  leed_inp_phase STRSZ tol IEND w p d empty_repository
  = (tr, Return (k, st1)) ->
  within_tolerance tol d2 d ->
  k = 0 /\ leed_inp_phase STRSZ tol IEND w p d2 st1 = ([], Return (0, st1)).
Proof.
  intros Habs Hcall Htol.
  rewrite (leed_inp_phase_absolute _ _ _ _ _ _ _ Habs) in Hcall.
  rewrite (leed_inp_phase_absolute _ _ _ _ _ _ _ Habs).
  destruct (returned_slot _ _ _ _ _ _ _ _ _ _ Hcall)
    as (Hk & Hbefore & q & Hq & Hfile).
  apply phase_of_file_Return in Hcall.
  destruct Hcall as [(Hl & _) | (_ & -> & phs & Hr & ->)];
    [discriminate Hl |].
  split; [reflexivity |].
  cbn [i_phase phs_shifts empty_repository] in *.
  rewrite nth_error_store_same in Hq by (rewrite grow_length; simpl; lia).
  apply read_file_fields in Hr. destruct Hr as (Hd & _).
  assert (q = phs) by congruence. subst q.
  assert (Hm : matches tol p d2 phs = true).
  { unfold matches. rewrite Hfile, Hd, String.eqb_refl. simpl.
    apply same_dr_within. exact Htol. }
  destruct (lookup_finds tol p d2
              (mk_repo 1 (store 0 phs (grow IEND empty_repository)))
              0 phs) as (k' & Hl' & Hle & _).
  - simpl. lia.
  - intros j Hj. lia.
  - apply nth_error_store_same. rewrite grow_length. simpl. lia.
  - exact Hm.
  - assert (k' = 0) by lia. subst k'.
    apply phase_of_file_hit. exact Hl'.
Qed.




(** ** Characters, lines and fields *)

Lemma isdigit_is (c : ascii) :
  isdigit c = true ->
  Ascii.eqb c NUL = false /\ Ascii.eqb c LF = false /\ isspace c = false
  /\ is_blank_or_minus c = false /\ Ascii.eqb c "." = false
  /\ Ascii.eqb c "-" = false /\ Ascii.eqb c "+" = false
  /\ Ascii.eqb c "e" = false /\ Ascii.eqb c "E" = false.
Proof.
  destruct c as [[] [] [] [] [] [] [] []]; intros H;
    try discriminate H; repeat split; reflexivity.
Qed.

Lemma span_app {A : Type} (p : A -> bool) (a r : list A) :
  forallb p a = true ->
  match r with [] => True | c :: _ => p c = false end ->
  span p (a ++ r) = (a, r).
Proof.
  intros Ha Hr. induction a as [| x a IH]; simpl in *.
  - destruct r as [| c r]; simpl; [reflexivity | rewrite Hr; reflexivity].
  - apply andb_true_iff in Ha. destruct Ha as [Hx Ha].
    rewrite Hx, (IH Ha). reflexivity.
Qed.

Lemma cstr_app_NUL (l t : list ascii) : cstr (l ++ NUL :: t) = cstr l.
Proof.
  unfold cstr. induction l as [| c l IH]; simpl.
  - reflexivity.
  - destruct (negb (Ascii.eqb c NUL)); [| reflexivity].
    destruct (span _ (l ++ NUL :: t)), (span _ l). simpl in *. congruence.
Qed.

Lemma cstr_cons (c : ascii) (l : list ascii) :
  Ascii.eqb c NUL = false -> cstr (c :: l) = c :: cstr l.
Proof.
  intros H. unfold cstr. simpl. rewrite H. simpl.
  destruct (span _ l). reflexivity.
Qed.

Lemma cstr_app (a l : list ascii) :
  forallb (fun c => negb (Ascii.eqb c NUL)) a = true ->
  cstr (a ++ l) = a ++ cstr l.
Proof.
  intros H. induction a as [| c a IH]; simpl in *; [reflexivity |].
  apply andb_true_iff in H. destruct H as [Hc Ha].
  apply negb_true_iff in Hc. rewrite (cstr_cons _ _ Hc), (IH Ha). reflexivity.
Qed.

Lemma sscanf_le_line (line stale : list ascii) :
  sscanf_le (line ++ NUL :: stale) = scan_le (cstr line).
Proof. unfold sscanf_le. rewrite cstr_app_NUL. reflexivity. Qed.

Lemma sscanf_d_d_s_line (line stale : list ascii) :
  sscanf_d_d_s (line ++ NUL :: stale) = sscanf_d_d_s line.
Proof. unfold sscanf_d_d_s. rewrite cstr_app_NUL. reflexivity. Qed.

Lemma take_line_one_line (room : nat) :
  forall l rest, one_line room l = true -> take_line room (l ++ rest) = (l, rest).
Proof.
  induction room as [| r IH]; intros l rest H; [destruct l; discriminate |].
  destruct l as [| c t]; [discriminate |].
  destruct t as [| c' t'].
  - simpl in H. simpl. rewrite H. reflexivity.
  - change (one_line (S r) (c :: c' :: t'))
      with (negb (Ascii.eqb c LF) && one_line r (c' :: t')) in H.
    apply andb_true_iff in H. destruct H as [Hc Ht].
    apply negb_true_iff in Hc.
    change ((c :: c' :: t') ++ rest) with (c :: ((c' :: t') ++ rest)).
    cbn [take_line]. rewrite Hc, (IH _ rest Ht). reflexivity.
Qed.

Lemma one_line_not_nil (room : nat) (l : list ascii) :
  one_line room l = true -> l <> [].
Proof. destruct room, l; simpl; congruence. Qed.

Lemma fgets_one_line (STRSZ : nat) (buf l rest : list ascii) :
  one_line (STRSZ - 1) l = true ->
  fgets buf STRSZ (l ++ rest)
  = Some (l ++ NUL :: skipn (S (List.length l)) buf, rest).
Proof.
  intros H. unfold fgets.
  destruct (l ++ rest) as [| c t] eqn:E.
  - apply app_eq_nil in E. destruct E as [E _].
    exfalso. exact (one_line_not_nil _ _ H E).
  - rewrite <- E, (take_line_one_line _ _ rest H). reflexivity.
Qed.

Lemma fgets_eof (STRSZ : nat) (buf : list ascii) : fgets buf STRSZ [] = None.
Proof. reflexivity. Qed.

Lemma fgets_last (STRSZ : nat) (buf inp : list ascii) :
  inp <> [] -> snd (take_line (STRSZ - 1) inp) = [] ->
  exists lb, fgets buf STRSZ inp = Some (lb, []).
Proof.
  intros Hne Hlast. unfold fgets. destruct inp as [| c t]; [congruence |].
  destruct (take_line (STRSZ - 1) (c :: t)) as [line rest]. simpl in Hlast.
  subst rest. eauto.
Qed.

(** The loop on the array and the loop on its cells from [i_str] on. *)
Lemma read_pshift_cells (todo : nat) :
  forall i i_str linebuffer row ps,
    read_pshift todo i i_str linebuffer row ps
    = read_fields todo i (skipn i_str linebuffer) row ps.
Proof.
  induction todo as [| todo IH]; intros i i_str lb row ps; [reflexivity |].
  cbn [read_pshift read_fields]. unfold next_field.
  destruct (scan_while is_blank_or_minus (skipn i_str lb)) as [a |];
    [| reflexivity].
  rewrite skipn_skipn, (Nat.add_comm a i_str).
  destruct (scan_while _ (skipn (i_str + a) lb)) as [b |]; [| reflexivity].
  rewrite IH, skipn_skipn.
  replace (a + b + i_str) with (i_str + a + b) by lia. reflexivity.
Qed.

Lemma scan_while_app (cond : ascii -> bool) (cells tail : list ascii) (a : nat) :
  scan_while cond cells = Some a ->
  scan_while cond (cells ++ tail) = Some a /\ a < List.length cells.
Proof.
  revert a. induction cells as [| c t IH]; intros a H; [discriminate |].
  simpl in *. destruct (cond c).
  - destruct (scan_while cond t) as [a' |]; [| discriminate].
    inversion H; subst. destruct (IH a' eq_refl) as [-> Hlt].
    split; [reflexivity | lia].
  - inversion H; subst. split; [reflexivity | lia].
Qed.

Lemma scan_while_run (cond : ascii -> bool) (run rest : list ascii) :
  forallb cond run = true ->
  scan_while cond (run ++ rest)
  = option_map (Nat.add (List.length run)) (scan_while cond rest).
Proof.
  intros H. induction run as [| c run IH]; simpl in *.
  - destruct (scan_while cond rest); reflexivity.
  - apply andb_true_iff in H. destruct H as [Hc Hrun].
    rewrite Hc, (IH Hrun). destruct (scan_while cond rest); reflexivity.
Qed.

Lemma skipn_app_le {A : Type} (n : nat) (l t : list A) :
  n <= List.length l -> skipn n (l ++ t) = skipn n l ++ t.
Proof.
  intros H. rewrite skipn_app.
  replace (n - List.length l) with 0 by lia. reflexivity.
Qed.


(** Fields that end inside the line are read whatever follows the line in
    the array. *)
Lemma fields_in_read (todo : nat) :
  forall cells tail i row ps,
    fields_in todo cells = true ->
    exists ps', read_fields todo i (cells ++ tail) row ps = Return ps'.
Proof.
  induction todo as [| todo IH]; intros cells tail i row ps H; simpl in *.
  - eauto.
  - destruct (scan_while is_blank_or_minus cells) as [a |] eqn:Ea;
      [| discriminate].
    destruct (scan_while _ (skipn a cells)) as [b |] eqn:Eb; [| discriminate].
    destruct (scan_while_app _ _ tail _ Ea) as [-> Ha].
    destruct (scan_while_app _ _ tail _ Eb) as [Hb Hlt].
    rewrite length_skipn in Hlt.
    rewrite (skipn_app_le a) by lia. rewrite Hb.
    rewrite (skipn_app_le (a + b)) by lia.
    apply IH. exact H.
Qed.

(** ** The fuel of [skip_comments] *)

Lemma take_line_length (room : nat) :
  forall inp, List.length (fst (take_line room inp))
              + List.length (snd (take_line room inp)) = List.length inp.
Proof.
  induction room as [| r IH]; intros [| c t]; simpl; auto.
  destruct (Ascii.eqb c LF); simpl; [reflexivity |].
  specialize (IH t). destruct (take_line r t) as [a b]. simpl in *. lia.
Qed.

(** A line that begins with [#] took a character from the input. *)
Lemma fgets_comment_shorter (STRSZ : nat) (buf inp lb rest : list ascii) :
  fgets buf STRSZ inp = Some (lb, rest) ->
  Ascii.eqb (hd NUL lb) "#" = true ->
  List.length rest < List.length inp.
Proof.
  unfold fgets. destruct inp as [| c t]; [discriminate |].
  pose proof (take_line_length (STRSZ - 1) (c :: t)) as Hlen.
  destruct (take_line (STRSZ - 1) (c :: t)) as [line r]. simpl in Hlen.
  intros H Hhd. inversion H; subst.
  destruct line as [| x line]; [discriminate Hhd |]. simpl in *. lia.
Qed.

(** More fuel than the length of the input changes nothing: the loop of
    line 161 ends by itself. *)
Lemma skip_comments_fuel (STRSZ : nat) (fuel : nat) :
  forall more lb inp,
    List.length inp <= fuel ->
    skip_comments STRSZ (fuel + more) lb inp = skip_comments STRSZ fuel lb inp.
Proof.
  induction fuel as [| fuel IH]; intros more lb inp Hlen.
  - destruct inp as [| c t]; [| simpl in Hlen; lia].
    destruct more; reflexivity.
  - cbn [Nat.add skip_comments].
    destruct (fgets lb STRSZ inp) as [[lb1 inp1] |] eqn:E; [| reflexivity].
    destruct (Ascii.eqb (hd NUL lb1) "#") eqn:Hhd; [| reflexivity].
    apply IH. pose proof (fgets_comment_shorter _ _ _ _ _ E Hhd). lia.
Qed.

(** ** The loop over the energies *)

Section Energies.

Variable STRSZ : nat.

Lemma Return_inj {A : Type} (a b : A) : Return a = Return b -> a = b.
Proof. intros H. congruence. Qed.

Lemma fgets_Some (buf inp lb rest : list ascii) :
  fgets buf STRSZ inp = Some (lb, rest) ->
  inp <> [] /\ rest = snd (take_line (STRSZ - 1) inp).
Proof.
  unfold fgets. destruct inp as [| c t]; [discriminate |].
  destruct (take_line (STRSZ - 1) (c :: t)) as [line r]. intros H.
  inversion H; subst. split; [discriminate | reflexivity].
Qed.

Lemma fgets_None (buf inp : list ascii) :
  fgets buf STRSZ inp = None <-> inp = [].
Proof.
  unfold fgets. destruct inp as [| c t].
  - tauto.
  - destruct (take_line (STRSZ - 1) (c :: t)). split; discriminate.
Qed.

Lemma read_pshift_Undefined (todo : nat) :
  forall i i_str lb row ps,
    match read_pshift todo i i_str lb row ps with
    | Return _ => True
    | Exit _ => False
    | Undefined u => u = ReadPastLinebuffer
    end.
Proof.
  induction todo as [| todo IH]; intros i i_str lb row ps; simpl; [exact I |].
  destruct (next_field lb i_str); [apply IH | reflexivity].
Qed.

(** Past index 0 no run reads [energy[i_eng-1]] before the array. *)
Lemma read_energies_later (eng_scale : real) (nl todo : nat) :
  forall i_eng inp lb phs,
    read_energies STRSZ eng_scale nl todo (S i_eng) inp lb phs
    <> Undefined ReadBeforeEnergy.
Proof.
  induction todo as [| todo IH]; intros i_eng inp lb phs;
    cbn [read_energies]; [discriminate |].
  destruct (fgets lb STRSZ inp) as [[lb1 inp1] |]; [| discriminate].
  destruct (fgets lb1 STRSZ inp1) as [[lb2 inp2] |]; [| discriminate].
  pose proof (read_pshift_Undefined nl 0 0 lb2 (S i_eng * nl)
                (pshift (energy_line eng_scale (S i_eng) lb1 phs))) as Hp.
  destruct (read_pshift nl 0 0 lb2 (S i_eng * nl) _) as [ps | |].
  - apply IH.
  - contradiction.
  - subst u. discriminate.
Qed.

Lemma read_energies_first (eng_scale : real) (nl todo : nat)
      (inp lb : list ascii) (phs : leed_phase) :
  read_energies STRSZ eng_scale nl todo 0 inp lb phs
  = Undefined ReadBeforeEnergy
  <-> todo <> 0 /\ inp <> [] /\ snd (take_line (STRSZ - 1) inp) = [].
Proof.
  destruct todo as [| todo]; cbn [read_energies].
  - split; [discriminate | tauto].
  - destruct (fgets lb STRSZ inp) as [[lb1 inp1] |] eqn:E1.
    + destruct (fgets_Some _ _ _ _ E1) as [Hne Hrest].
      destruct (fgets lb1 STRSZ inp1) as [[lb2 inp2] |] eqn:E2.
      * destruct (fgets_Some _ _ _ _ E2) as [Hne2 _].
        pose proof (read_pshift_Undefined nl 0 0 lb2 (0 * nl)
                      (pshift (energy_line eng_scale 0 lb1 phs))) as Hp.
        split.
        -- destruct (read_pshift nl 0 0 lb2 (0 * nl) _) as [ps | |].
           ++ intros H. exfalso.
              exact (read_energies_later _ _ _ _ _ _ _ H).
           ++ contradiction.
           ++ subst u. discriminate.
        -- intros (_ & _ & H). congruence.
      * apply fgets_None in E2. split; [| reflexivity].
        intros _. repeat split; congruence.
    + apply fgets_None in E1. split; [discriminate | tauto].
Qed.

(** A run never goes past the energies it was asked for. *)
Lemma read_energies_bound (eng_scale : real) (nl todo : nat) :
  forall i_eng inp lb phs i' phs',
    read_energies STRSZ eng_scale nl todo i_eng inp lb phs = Return (i', phs') ->
    i_eng <= i' <= i_eng + todo
    /\ List.length (energy phs') = List.length (energy phs).
Proof.
  induction todo as [| todo IH]; intros i_eng inp lb phs i' phs' H;
    cbn [read_energies] in H.
  - inversion H; subst. split; [lia | reflexivity].
  - destruct (fgets lb STRSZ inp) as [[lb1 inp1] |].
    2:{ inversion H; subst. split; [lia | reflexivity]. }
    assert (Hlen : List.length (energy (energy_line eng_scale i_eng lb1 phs))
                   = List.length (energy phs)).
    { unfold energy_line. destruct (i_eng =? 0); simpl; apply store_length. }
    destruct (fgets lb1 STRSZ inp1) as [[lb2 inp2] |].
    + destruct (read_pshift nl 0 0 lb2 (i_eng * nl) _) as [ps | |];
        try discriminate.
      apply IH in H. destruct H as [Hi Hl]. simpl in Hl.
      split; [lia | congruence].
    + destruct i_eng as [| j]; [discriminate |].
      apply Return_inj, pair_equal_spec in H. destruct H as [<- <-].
      cbn [energy set_eng_max set_energy].
      rewrite store_length. split; [lia | exact Hlen].
Qed.

End Energies.

(** C10.  In the part of the function that reads the tables (lines 174-278)
    the read of [energy[i_eng-1]] on line 242 falls before the array exactly
    when the file declares one energy or more and its first energy line is
    its last line (so no pair of lines is complete; [i_eng] is 0).  In every
    run that returns, the number of energies read is within the array, so
    the index [i_eng - 1] of a later truncation is inside it.  The file
    [short_file] is an input on which the call ends in that read. *)
Theorem C10_energy_before_first (STRSZ : nat) (filename : string) (n l : Z)
        (eng_type inp linebuffer : list ascii) (phs : leed_phase) :
  (snd (read_tables STRSZ filename n l eng_type inp linebuffer phs)
   = Undefined ReadBeforeEnergy
   <-> (0 < n)%Z /\ (0 <= l)%Z
       /\ inp <> [] /\ snd (take_line (STRSZ - 1) inp) = [])
  /\ (forall tr phs',
        read_tables STRSZ filename n l eng_type inp linebuffer phs
        = (tr, Return phs') ->
        exists i_eng,
          n_eng phs' = Some i_eng
          /\ i_eng <= List.length (energy phs')
          /\ List.length (energy phs') = Z.to_nat n)
  /\ call cu_world "/phs/h.phs" at_rest empty_repository
     = ([Fopen "/phs/h.phs"], Undefined ReadBeforeEnergy).
Proof.
  split; [| split; [| vm_compute; reflexivity]].
  - unfold read_tables.
    destruct ((n <? 0)%Z || (l <? 0)%Z) eqn:Eneg.
    + simpl. split; [discriminate |]. intros (Hn & Hl & _).
      apply orb_true_iff in Eneg. destruct Eneg as [E | E];
        apply Z.ltb_lt in E; lia.
    + apply orb_false_iff in Eneg. destruct Eneg as [En El].
      apply Z.ltb_ge in En. apply Z.ltb_ge in El.
      match goal with
      | |- snd (bind (lift ?r) ?k) = _ <-> _ =>
          pose proof (read_energies_first STRSZ (eng_scale_of eng_type)
                        (Z.to_nat l + 1) (Z.to_nat n) inp linebuffer
                        (set_pshift (malloc None
                                       (Z.to_nat n * (Z.to_nat l + 1)))
                           (set_energy (malloc None (Z.to_nat n))
                              (set_lmax l phs)))) as Hfirst;
          destruct r as [[i_eng q] | st | u] eqn:Er
      end.
      * rewrite bind_lift_Return. split.
        -- destruct (negb (i_eng =? Z.to_nat n)); discriminate.
        -- intros (Hn & _ & H). exfalso.
           assert (Hx : Return (i_eng, q) = Undefined ReadBeforeEnergy)
             by (apply Hfirst; split; [lia | exact H]).
           discriminate Hx.
      * simpl. split; [discriminate |]. intros (Hn & _ & H). exfalso.
        assert (Hx : @Exit (nat * leed_phase) st = Undefined ReadBeforeEnergy)
          by (apply Hfirst; split; [lia | exact H]).
        discriminate Hx.
      * simpl. split.
        -- intros H. assert (Hu : u = ReadBeforeEnergy) by congruence.
           subst u. destruct (proj1 Hfirst eq_refl) as (Ht & H1 & H2).
           repeat split; auto; lia.
        -- intros (Hn & _ & H).
           assert (Hx : @Undefined (nat * leed_phase) u
                        = Undefined ReadBeforeEnergy)
             by (apply Hfirst; split; [lia | exact H]).
           congruence.
  - intros tr phs' H. unfold read_tables in H.
    destruct ((n <? 0)%Z || (l <? 0)%Z); [discriminate |].
    apply bind_Return_inv in H.
    destruct H as (tr1 & [i_eng q] & tr2 & H1 & H & ->).
    apply lift_inv in H1. destruct H1 as [-> H1]. symmetry in H1.
    apply read_energies_bound in H1. destruct H1 as [Hi Hl].
    simpl in Hl. unfold malloc in Hl. rewrite repeat_length in Hl.
    apply bind_Return_inv in H. destruct H as (tr3 & [] & tr4 & _ & H & ->).
    inversion H; subst. exists i_eng. simpl. split; [reflexivity |].
    split; lia.
Qed.

(** ** First and last energy (lines 220-223 and 239-244) *)

Lemma nth_malloc_None {A : Type} (n j : nat) :
  nth j (malloc (@None A) n) None = None.
Proof.
  unfold malloc. revert j. induction n as [| n IH]; intros [| j]; simpl; auto.
Qed.

Lemma energy_line_energy (eng_scale : real) (i_eng : nat) (lb : list ascii)
      (phs : leed_phase) :
  energy (energy_line eng_scale i_eng lb phs)
  = store i_eng
          (option_map (fun x => (x * eng_scale)%Q)
             (assign_scanned (nth i_eng (energy phs) None) (sscanf_le lb)))
          (energy phs).
Proof. unfold energy_line. destruct (i_eng =? 0); reflexivity. Qed.

Lemma energy_line_min_max (eng_scale : real) (i_eng : nat) (lb : list ascii)
      (phs : leed_phase) :
  let phs2 := energy_line eng_scale i_eng lb phs in
  (i_eng = 0 -> eng_min phs2 = nth 0 (energy phs2) None
                /\ eng_max phs2 = eng_max phs)
  /\ (0 < i_eng -> eng_max phs2 = nth i_eng (energy phs2) None
                   /\ eng_min phs2 = eng_min phs).
Proof.
  unfold energy_line. split.
  - intros ->. simpl. auto.
  - intros H. destruct i_eng as [| j]; [lia |]. simpl. auto.
Qed.

Section FirstAndLast.

Variable STRSZ : nat.

(** What a run from index [i_eng] on does to [eng_min], [eng_max] and the
    energies, when the cells from [i_eng] on are still indeterminate. *)
Lemma read_energies_min_max (eng_scale : real) (nl todo : nat) :
  forall i_eng inp lb phs i' phs',
    (forall j, i_eng <= j -> nth j (energy phs) None = None) ->
    i_eng + todo <= List.length (energy phs) ->
    read_energies STRSZ eng_scale nl todo i_eng inp lb phs = Return (i', phs') ->
    (forall j, j < i_eng ->
       nth j (energy phs') None = nth j (energy phs) None)
    /\ (nth i' (energy phs') None = None
        \/ (nth i' (energy phs') None = Some 0%Q /\ 1 <= i'
            /\ eng_max phs' = nth (i' - 1) (energy phs') None))
    /\ (0 < i_eng -> eng_min phs' = eng_min phs)
    /\ (i_eng = 0 -> 1 <= i' -> eng_min phs' = nth 0 (energy phs') None)
    /\ (i_eng < i' -> 2 <= i' ->
        eng_max phs' = nth (i' - 1) (energy phs') None)
    /\ (i' = i_eng ->
        eng_max phs' = eng_max phs
        \/ (1 <= i_eng /\ eng_max phs' = nth (i_eng - 1) (energy phs') None)).
Proof.
  induction todo as [| todo IH]; intros i_eng inp lb phs i' phs' Hnone Hlen H;
    cbn [read_energies] in H.
  - apply Return_inj, pair_equal_spec in H. destruct H as [<- <-].
    repeat split; auto; try lia; try (left; apply Hnone; lia).
  - destruct (fgets lb STRSZ inp) as [[lb1 inp1] |].
    2:{ apply Return_inj, pair_equal_spec in H. destruct H as [<- <-].
        repeat split; auto; try lia; try (left; apply Hnone; lia). }
    pose proof (energy_line_energy eng_scale i_eng lb1 phs) as He.
    pose proof (energy_line_min_max eng_scale i_eng lb1 phs) as [Hm0 Hm1].
    cbv zeta in Hm0, Hm1.
    set (phs2 := energy_line eng_scale i_eng lb1 phs) in *.
    assert (Hkeep : forall j, j <> i_eng ->
                      nth j (energy phs2) None = nth j (energy phs) None).
    { intros j Hj. rewrite He. apply nth_store_other. lia. }
    destruct (fgets lb1 STRSZ inp1) as [[lb2 inp2] |].
    + destruct (read_pshift nl 0 0 lb2 (i_eng * nl) (pshift phs2)) as [ps | |];
        try discriminate.
      pose proof (read_energies_bound _ _ _ _ _ _ _ _ _ _ H) as [Hb _].
      apply IH in H.
      * cbn [energy eng_min eng_max set_pshift] in H.
        destruct H as (K & Z & M1 & _ & X & U).
        split; [| split; [exact Z |]].
        { intros j Hj. rewrite K by lia. apply Hkeep. lia. }
        split; [| split; [| split]].
        -- intros Hpos. rewrite M1 by lia. apply Hm1. exact Hpos.
        -- intros -> _. rewrite M1 by lia. rewrite K by lia.
           apply Hm0. reflexivity.
        -- intros Hlt H2. destruct (Nat.eq_dec i' (S i_eng)) as [-> | Hne].
           ++ replace (S i_eng - 1) with i_eng by lia.
              destruct (U eq_refl) as [E | [_ E]].
              ** rewrite E, K by lia. apply Hm1. lia.
              ** replace (S i_eng - 1) with i_eng in E by lia. exact E.
           ++ apply X; lia.
        -- intros ->. lia.
      * cbn [energy set_pshift]. intros j Hj. rewrite Hkeep by lia.
        apply Hnone. lia.
      * cbn [energy set_pshift]. rewrite He, store_length. lia.
    + destruct i_eng as [| j]; [discriminate |].
      apply Return_inj, pair_equal_spec in H. destruct H as [<- <-].
      cbn [energy eng_min eng_max set_eng_max set_energy].
      assert (Hin : S j < List.length (energy phs2)).
      { rewrite He, store_length. lia. }
      split; [| split; [| split; [| split; [| split]]]].
      * intros k Hk. rewrite nth_store_other by lia. apply Hkeep. lia.
      * right. split; [apply nth_store_same; exact Hin |].
        split; [lia |]. replace (S j - 1) with j by lia. reflexivity.
      * intros _. apply Hm1. lia.
      * intros Hz. lia.
      * intros Hlt. lia.
      * intros _. right. split; [lia |].
        replace (S j - 1) with j by lia. reflexivity.
Qed.

(** The same for the whole of lines 174-278. *)
Lemma read_tables_min_max (filename : string) (n l : Z)
      (eng_type inp lb : list ascii) (phs : leed_phase) tr phs' :
  read_tables STRSZ filename n l eng_type inp lb phs = (tr, Return phs') ->
  exists i_eng,
    n_eng phs' = Some i_eng
    /\ (1 <= i_eng -> eng_min phs' = nth 0 (energy phs') None)
    /\ (2 <= i_eng -> eng_max phs' = nth (i_eng - 1) (energy phs') None)
    /\ (nth i_eng (energy phs') None = Some 0%Q ->
        1 <= i_eng /\ eng_max phs' = nth (i_eng - 1) (energy phs') None).
Proof.
  unfold read_tables. intros H.
  destruct ((n <? 0)%Z || (l <? 0)%Z); [discriminate |].
  apply bind_Return_inv in H.
  destruct H as (tr1 & [i_eng q] & tr2 & H1 & H & ->).
  apply lift_inv in H1. destruct H1 as [-> H1]. symmetry in H1.
  apply read_energies_min_max in H1.
  - destruct H1 as (_ & Z & _ & M & X & _).
    apply bind_Return_inv in H. destruct H as (tr3 & [] & tr4 & _ & H & ->).
    assert (E : phs' = set_n_eng i_eng q) by (inversion H; reflexivity).
    subst phs'. exists i_eng. cbn [n_eng eng_min eng_max energy set_n_eng].
    split; [reflexivity |]. split; [intros; apply M; [reflexivity | lia] |].
    split; [intros; apply X; lia |].
    intros Hz. destruct Z as [Z | Z]; [congruence | tauto].
  - intros j _. cbn [energy set_pshift set_energy]. apply nth_malloc_None.
  - cbn [energy set_pshift set_energy]. unfold malloc.
    rewrite repeat_length. lia.
Qed.

End FirstAndLast.

(** The loop when the line of the energy at index [j + 1] is the last line
    of the file: its entry is zeroed and [eng_max] is the energy before
    it. *)
Lemma read_energies_cut (STRSZ : nat) (eng_scale : real) (nl todo j : nat)
      (inp lb lb1 : list ascii) (phs : leed_phase) :
  fgets lb STRSZ inp = Some (lb1, []) ->
  S j < List.length (energy phs) ->
  exists phs',
    read_energies STRSZ eng_scale nl (S todo) (S j) inp lb phs
    = Return (S j, phs')
    /\ nth (S j) (energy phs') None = Some 0%Q
    /\ eng_max phs' = nth j (energy phs') None
    /\ nth j (energy phs') None = nth j (energy phs) None.
Proof.
  intros Hlast Hlen. cbn [read_energies]. rewrite Hlast, fgets_eof.
  eexists. split; [reflexivity |].
  cbn [energy eng_max set_eng_max set_energy].
  rewrite energy_line_energy.
  split; [apply nth_store_same; rewrite store_length; exact Hlen |].
  split; [reflexivity |].
  rewrite !nth_store_other by lia. reflexivity.
Qed.

(** C5 (as amended).  For every file the function reads to its return, with
    [i_eng] the number of energies read: [eng_min] is the scaled energy at
    index 0 (when one was read); [eng_max] is the scaled energy at index
    [i_eng - 1], the last one read, when two or more were read, whatever the
    values in between, so that it is below [eng_min] when the last energy is
    below the first; and where the entry at index [i_eng] was zeroed,
    [eng_max] is the energy at index [i_eng - 1] and not that entry.  The
    entry is zeroed when the loop stops at a missing line of phase shifts
    after one complete pair or more: the loop then returns with [eng_max]
    the energy of the last complete pair. *)
Theorem C5_first_and_last (STRSZ : nat) :
  (forall (w : world) (filename : string) (phs phs' : leed_phase)
          (tr : list event),
     read_file STRSZ w filename phs = (tr, Return phs') ->
     exists i_eng,
       n_eng phs' = Some i_eng
       /\ (1 <= i_eng -> eng_min phs' = nth 0 (energy phs') None)
       /\ (2 <= i_eng -> eng_max phs' = nth (i_eng - 1) (energy phs') None)
       /\ (nth i_eng (energy phs') None = Some 0%Q ->
           1 <= i_eng /\ eng_max phs' = nth (i_eng - 1) (energy phs') None)
       /\ (forall first last,
             2 <= i_eng ->
             nth 0 (energy phs') None = Some first ->
             nth (i_eng - 1) (energy phs') None = Some last ->
             (last < first)%Q ->
             exists lo hi, eng_min phs' = Some lo /\ eng_max phs' = Some hi
                           /\ (hi < lo)%Q))
  /\ (forall (eng_scale : real) (nl todo j : nat) (inp lb lb1 : list ascii)
             (phs : leed_phase),
        fgets lb STRSZ inp = Some (lb1, []) ->
        S j < List.length (energy phs) ->
        exists phs',
          read_energies STRSZ eng_scale nl (S todo) (S j) inp lb phs
          = Return (S j, phs')
          /\ nth (S j) (energy phs') None = Some 0%Q
          /\ eng_max phs' = nth j (energy phs') None
          /\ nth j (energy phs') None = nth j (energy phs) None).
Proof.
  split; [| apply read_energies_cut].
  intros w filename phs phs' tr. unfold read_file. intros H.
  apply bind_Return_inv in H. destruct H as (tr1 & [] & tr2 & _ & H & ->).
  destruct (files w filename) as [inp |].
  2:{ apply bind_Return_inv in H. destruct H as (? & ? & ? & _ & H & _).
      discriminate. }
  apply bind_Return_inv in H.
  destruct H as (tr3 & [[[[n l] eng_type] inp1] lb] & tr4 & _ & H & ->).
  apply read_tables_min_max in H.
  destruct H as (i_eng & Hn & Hmin & Hmax & Hcut).
  exists i_eng. repeat split; auto; try (apply Hcut; assumption).
  intros first last H2 Hfirst Hlast Hlt.
  exists first, last. rewrite Hmin, Hmax by lia. auto.
Qed.

Lemma C5_first_and_last_witness :
  exists lo hi,
    eng_min (slot_read (read_file 256 cu_world "/phs/ni.phs" fresh_slot))
    = Some lo
    /\ eng_max (slot_read (read_file 256 cu_world "/phs/ni.phs" fresh_slot))
       = Some hi
    /\ (hi < lo)%Q.
Proof.
  destruct (proj1 (C5_first_and_last 256) cu_world "/phs/ni.phs"%string
              fresh_slot
              (slot_read (read_file 256 cu_world "/phs/ni.phs" fresh_slot))
              [Fopen "/phs/ni.phs"; WarningEOF 3 3 "/phs/ni.phs"])
    as (i_eng & Hn & _ & _ & _ & Hfall).
  - vm_compute. reflexivity.
  - assert (E : i_eng = 2) by (vm_compute in Hn; congruence). subst i_eng.
    apply (Hfall (543600 # 271800) (271800 # 271800))%Q.
    + lia.
    + vm_compute. reflexivity.
    + vm_compute. reflexivity.
    + vm_compute. reflexivity.
Defined.

(** C5 as stated fails.  [small_unit_file] declares one energy and holds
    it.  The call reads it into [eng_min]; no line of the loop assigns
    [eng_max] at index 0, which is left indeterminate and is not the energy
    read. *)
Lemma C5_counterexample :
  exists phs,
    nth_error (phs_shifts (list_after (call cu_world "ag" at_rest
                                            empty_repository))) 0
    = Some phs
    /\ n_eng phs = Some 1
    /\ energy phs = [Some (27.18 * 1)%Q]
    /\ eng_min phs = Some (27.18 * 1)%Q
    /\ eng_max phs = None.
Proof.
  eexists. split; [vm_compute; reflexivity |].
  repeat split; vm_compute; reflexivity.
Qed.

(** ** Packed phase shifts (lines 225-238) *)

Lemma blank_is (c : ascii) :
  Ascii.eqb c " " = true -> isspace c = true /\ is_blank_or_minus c = true.
Proof. intros H. apply Ascii.eqb_eq in H. subst c. split; reflexivity. Qed.

Lemma forallb_impl {A : Type} (p q : A -> bool) (l : list A) :
  (forall x, p x = true -> q x = true) ->
  forallb p l = true -> forallb q l = true.
Proof.
  intros Hpq. induction l as [| x l IH]; simpl; [reflexivity |].
  rewrite !andb_true_iff. intros [Hx Hl]. auto.
Qed.

(** The head of digits followed by a point is no space, no sign and no
    separator of the fields. *)
Lemma digits_point_head (ip rest : list ascii) :
  forallb isdigit ip = true ->
  match ip ++ "."%char :: rest with
  | [] => False
  | c :: _ => isspace c = false /\ is_blank_or_minus c = false
              /\ Ascii.eqb c "-" = false /\ Ascii.eqb c "+" = false
  end.
Proof.
  destruct ip as [| d ip]; simpl.
  - intros _. repeat split; reflexivity.
  - intros H. apply andb_true_iff in H. destruct H as [Hd _].
    pose proof (isdigit_is d Hd). tauto.
Qed.

Lemma scan_le_fixed (lead : list ascii) (neg : bool)
      (ip fp rest : list ascii) :
  forallb isspace lead = true ->
  forallb isdigit ip = true -> forallb isdigit fp = true ->
  ip ++ fp <> [] ->
  match rest with [] => True | c :: _ => ends_number c = true end ->
  scan_le (lead ++ fixed neg ip fp ++ rest) = Some (dec_value neg ip fp 0).
Proof.
  intros Hlead Hip Hfp Hne Hrest. unfold scan_le, skip_space, fixed.
  assert (Hrest' : match rest with
                   | [] => True
                   | c :: _ => isdigit c = false
                               /\ Ascii.eqb c "e" || Ascii.eqb c "E" = false
                   end).
  { destruct rest as [| c rest]; [exact I |]. unfold ends_number in Hrest.
    rewrite !andb_true_iff, !negb_true_iff in Hrest.
    destruct Hrest as [[H1 H2] H3]. rewrite H2, H3. auto. }
  rewrite <- !app_assoc. cbn [app].
  pose proof (digits_point_head ip (fp ++ rest) Hip) as Hhead.
  rewrite (span_app isspace lead).
  2: exact Hlead.
  2:{ destruct neg; cbn [sign_of app]; [reflexivity |].
      destruct (ip ++ "."%char :: fp ++ rest); [exact I | tauto]. }
  cbn [snd].
  assert (Hsign : scan_sign (sign_of neg ++ ip ++ "."%char :: fp ++ rest)
                  = (neg, ip ++ "."%char :: fp ++ rest)).
  { destruct neg; cbn [sign_of app]; [reflexivity |].
    unfold scan_sign. destruct (ip ++ "."%char :: fp ++ rest) as [| c t];
      [contradiction |].
    destruct Hhead as (_ & _ & Hm & Hp). rewrite Hm, Hp. reflexivity. }
  rewrite Hsign. rewrite (span_app isdigit ip); [| exact Hip | reflexivity].
  cbn [Ascii.eqb Bool.eqb]. 
  rewrite (span_app isdigit fp);
    [| exact Hfp | destruct rest; [exact I | tauto]].
  destruct (ip ++ fp) eqn:E; [congruence |].
  f_equal. f_equal. unfold scan_exponent.
  destruct rest as [| c rest]; [reflexivity |].
  destruct Hrest' as [_ ->]. reflexivity.
Qed.

Lemma fixed_not_NUL (neg : bool) (ip fp : list ascii) :
  forallb isdigit ip = true -> forallb isdigit fp = true ->
  forallb (fun c => negb (Ascii.eqb c NUL)) (fixed neg ip fp) = true.
Proof.
  intros Hip Hfp. unfold fixed. rewrite !forallb_app. cbn [forallb].
  assert (Hd : forall l, forallb isdigit l = true ->
                 forallb (fun c => negb (Ascii.eqb c NUL)) l = true).
  { intros l. apply forallb_impl. intros c Hc.
    destruct (isdigit_is c Hc) as (-> & _). reflexivity. }
  rewrite (Hd ip Hip), (Hd fp Hfp). destruct neg; reflexivity.
Qed.

(** The unsigned part of a number holds no blank and no minus. *)
Lemma digits_point_field (ip fp : list ascii) :
  forallb isdigit ip = true -> forallb isdigit fp = true ->
  forallb (fun c => negb (is_blank_or_minus c)) (ip ++ "."%char :: fp) = true.
Proof.
  intros Hip Hfp. rewrite forallb_app. cbn [forallb].
  assert (Hd : forall l, forallb isdigit l = true ->
                 forallb (fun c => negb (is_blank_or_minus c)) l = true).
  { intros l. apply forallb_impl. intros c Hc.
    destruct (isdigit_is c Hc) as (_ & _ & _ & -> & _). reflexivity. }
  rewrite (Hd ip Hip), (Hd fp Hfp). reflexivity.
Qed.

Lemma cstr_head (tail : list ascii) :
  match tail with [] => True | c :: _ => ends_number c = true end ->
  match cstr tail with [] => True | c :: _ => ends_number c = true end.
Proof.
  destruct tail as [| c t]; [intros _; exact I |]. intros H.
  destruct (Ascii.eqb c NUL) eqn:E.
  - apply Ascii.eqb_eq in E. subst c. exact I.
  - rewrite (cstr_cons _ _ E). exact H.
Qed.

(** One turn of the loop on cells that begin with separators and a
    field. *)
Lemma read_fields_step (todo i : nat) (sep field rest : list ascii)
      (stop row : nat) (ps : list (option real)) :
  forallb is_blank_or_minus sep = true ->
  forallb (fun c => negb (is_blank_or_minus c)) field = true ->
  field <> [] ->
  scan_while (fun c => negb (is_blank_or_minus c)) rest = Some stop ->
  read_fields (S todo) i (sep ++ field ++ rest) row ps
  = read_fields todo (S i) (skipn stop rest) row
                (store (row + i)
                       (assign_scanned (nth (row + i) ps None)
                                       (sscanf_le (sep ++ field ++ rest)))
                       ps).
Proof.
  intros Hsep Hfield Hne Hstop. cbn [read_fields].
  rewrite (scan_while_run _ _ _ Hsep).
  assert (E0 : scan_while is_blank_or_minus (field ++ rest) = Some 0).
  { destruct field as [| c t]; [congruence |]. simpl in *.
    apply andb_true_iff in Hfield. destruct Hfield as [Hc _].
    apply negb_true_iff in Hc. rewrite Hc. reflexivity. }
  rewrite E0. cbn [option_map]. rewrite Nat.add_0_r.
  rewrite skipn_app_le by lia. rewrite skipn_all, app_nil_l.
  rewrite (scan_while_run _ _ _ Hfield), Hstop. cbn [option_map].
  replace (skipn (List.length sep + (List.length field + stop))
                 (sep ++ field ++ rest))
    with (skipn stop rest); [reflexivity |].
  rewrite Nat.add_comm, <- skipn_skipn.
  rewrite skipn_app_le by lia. rewrite skipn_all, app_nil_l.
  rewrite Nat.add_comm, <- skipn_skipn.
  rewrite skipn_app_le by lia. rewrite skipn_all, app_nil_l.
  reflexivity.
Qed.




(** ** The energy scale (lines 168-192 and 218) *)

Lemma span_eq {A : Type} (p : A -> bool) (l : list A) :
  fst (span p l) ++ snd (span p l) = l.
Proof.
  induction l as [| x l IH]; simpl; [reflexivity |].
  destruct (p x); [| reflexivity].
  destruct (span p l) as [a b]. simpl in *. congruence.
Qed.

Lemma span_fst {A : Type} (p : A -> bool) (l : list A) :
  forallb p (fst (span p l)) = true.
Proof.
  induction l as [| x l IH]; simpl; [reflexivity |].
  destruct (p x) eqn:E; [| reflexivity].
  destruct (span p l) as [a b]. simpl in *. rewrite E, IH. reflexivity.
Qed.

Lemma span_parts {A : Type} (p q : A -> bool) (l : list A) :
  forallb q l = true ->
  forallb q (fst (span p l)) = true /\ forallb q (snd (span p l)) = true.
Proof.
  intros H. rewrite <- (span_eq p l), forallb_app in H.
  apply andb_true_iff in H. exact H.
Qed.

Lemma scan_sign_rest (q : ascii -> bool) (l : list ascii) :
  forallb q l = true -> forallb q (snd (scan_sign l)) = true.
Proof.
  intros H. unfold scan_sign. destruct l as [| c t]; [exact H |].
  simpl in H. apply andb_true_iff in H. destruct H as [Hc Ht].
  destruct (Ascii.eqb c "-"); [exact Ht |].
  destruct (Ascii.eqb c "+"); [exact Ht |].
  simpl. rewrite Hc, Ht. reflexivity.
Qed.

Lemma scan_d_rest (q : ascii -> bool) (l r : list ascii) (z : Z) :
  forallb q l = true -> scan_d l = Some (z, r) -> forallb q r = true.
Proof.
  intros H. unfold scan_d, skip_space.
  pose proof (proj2 (span_parts isspace q l H)) as H1.
  apply scan_sign_rest in H1.
  destruct (scan_sign (snd (span isspace l))) as [neg l1]. simpl in H1.
  pose proof (proj2 (span_parts isdigit q l1 H1)) as H2.
  destruct (span isdigit l1) as [ds l2]. simpl in H2.
  destruct ds; [discriminate |]. intros E. inversion E; subst. exact H2.
Qed.

Lemma scan_s_token (q : ascii -> bool) (l tok r : list ascii) :
  forallb q l = true -> scan_s l = Some (tok, r) -> forallb q tok = true.
Proof.
  intros H. unfold scan_s, skip_space.
  pose proof (proj2 (span_parts isspace q l H)) as H1.
  pose proof (proj1 (span_parts (fun c => negb (isspace c)) q _ H1)) as H2.
  destruct (span (fun c => negb (isspace c)) (snd (span isspace l)))
    as [t l1]. simpl in H2.
  destruct t; [discriminate |]. intros E. inversion E; subst. exact H2.
Qed.

(** The unit token of a first line holds no NUL. *)
Lemma unit_token_no_NUL (linebuffer tok : list ascii) (n l : Z) :
  sscanf_d_d_s linebuffer = Hdr3 n l tok ->
  forallb (fun c => negb (Ascii.eqb c NUL)) tok = true.
Proof.
  unfold sscanf_d_d_s. intros H.
  pose proof (span_fst (fun c => negb (Ascii.eqb c NUL)) linebuffer) as H0.
  fold (cstr linebuffer) in H0.
  destruct (scan_d (cstr linebuffer)) as [[n1 r1] |] eqn:E1; [| discriminate].
  pose proof (scan_d_rest _ _ _ _ H0 E1) as H1.
  destruct (scan_d r1) as [[l1 r2] |] eqn:E2; [| discriminate].
  pose proof (scan_d_rest _ _ _ _ H1 E2) as H2.
  destruct (scan_s r2) as [[t r3] |] eqn:E3; [| discriminate].
  inversion H; subst. exact (scan_s_token _ _ _ _ H2 E3).
Qed.

(** [strncmp] with a literal sees the token, not the bytes behind it. *)
Lemma strncmp_eq_begins (pre : list ascii) :
  forallb (fun c => negb (Ascii.eqb c NUL)) pre = true ->
  forall tok stale,
    forallb (fun c => negb (Ascii.eqb c NUL)) tok = true ->
    strncmp_eq (tok ++ NUL :: stale) pre (List.length pre) = begins pre tok.
Proof.
  induction pre as [| c pre IH]; intros Hpre tok stale Htok;
    [destruct tok; reflexivity |].
  simpl in Hpre. apply andb_true_iff in Hpre. destruct Hpre as [Hc Hpre].
  apply negb_true_iff in Hc.
  cbn [List.length strncmp_eq]. rewrite (cstr_cons c pre Hc).
  destruct tok as [| d tok]; [reflexivity |].
  simpl in Htok. apply andb_true_iff in Htok. destruct Htok as [Hd Htok].
  apply negb_true_iff in Hd.
  change ((d :: tok) ++ NUL :: stale) with (d :: (tok ++ NUL :: stale)).
  rewrite (cstr_cons d _ Hd). cbn [tl begins].
  rewrite (IH Hpre tok stale Htok). reflexivity.
Qed.

Lemma eng_scale_of_token (tok stale : list ascii) :
  forallb (fun c => negb (Ascii.eqb c NUL)) tok = true ->
  eng_scale_of (tok ++ NUL :: stale) = scale_of_token tok.
Proof.
  intros H. unfold eng_scale_of, scale_of_token.
  assert (E : forall pre,
            forallb (fun c => negb (Ascii.eqb c NUL))
                    (list_ascii_of_string pre) = true ->
            String.length pre = 2 ->
            strncmp_eq (tok ++ NUL :: stale) (list_ascii_of_string pre) 2
            = begins (list_ascii_of_string pre) tok).
  { intros pre Hpre Hl.
    rewrite <- (strncmp_eq_begins _ Hpre tok stale H). f_equal.
    destruct pre as [| a [| b [| c pre]]]; simpl in *; congruence. }
  rewrite !E by reflexivity. reflexivity.
Qed.

(** Without a third item on the first line [sscanf] assigns nothing to
    [eng_type]: the scale is chosen from the bytes the array holds on
    entry. *)
Lemma absent_token_keeps_eng_type (STRSZ : nat) (w : world)
      (filename : string) (inp inp' lb eng_type : list ascii)
      (tr : list event) (n l : Z) :
  read_header STRSZ w filename inp = (tr, Return (n, l, eng_type, inp', lb)) ->
  sscanf_d_d_s lb = Hdr2 n l ->
  eng_type = entry_array STRSZ (eng_type_entry w).
Proof.
  unfold read_header. intros H Hhdr.
  apply bind_Return_inv in H.
  destruct H as (tr1 & [lb1 inp1] & tr2 & _ & H & _).
  destruct (sscanf_d_d_s lb1) as [| n1 | n1 l1 | n1 l1 tok] eqn:E;
    try discriminate H.
  - inversion H; subst. reflexivity.
  - inversion H; subst. congruence.
Qed.

Lemma absent_token_scale_example :
  eng_scale_of
    (entry_array 256 (fun i => if i =? 0 then "e"%char
                               else if i =? 1 then "V"%char else NUL))
  = (1 / HART)%Q.
Proof. reflexivity. Qed.

Section StoredEnergy.

Variable STRSZ : nat.

(** The energy of a line that was read with its phase shifts stays in its
    cell, scaled, until the loop returns. *)
Lemma stored_energy (eng_scale : real) (nl todo i_eng : nat)
      (e rest lb : list ascii) (phs phs' : leed_phase) (i' : nat) :
  one_line (STRSZ - 1) e = true ->
  (forall j, i_eng <= j -> nth j (energy phs) None = None) ->
  i_eng + S todo <= List.length (energy phs) ->
  read_energies STRSZ eng_scale nl (S todo) i_eng (e ++ rest) lb phs
  = Return (i', phs') ->
  i_eng < i' ->
  nth i_eng (energy phs') None
  = option_map (fun x => (x * eng_scale)%Q) (scan_le (cstr e)).
Proof.
  intros He Hnone Hlen H Hlt. cbn [read_energies] in H.
  rewrite (fgets_one_line STRSZ lb e rest He) in H.
  set (lb1 := e ++ NUL :: skipn (S (List.length e)) lb) in *.
  pose proof (energy_line_energy eng_scale i_eng lb1 phs) as Hen.
  unfold lb1 in Hen at 2. rewrite sscanf_le_line, (Hnone i_eng) in Hen by lia.
  cbn [assign_scanned] in Hen.
  assert (Hassign : assign_scanned None (scan_le (cstr e)) = scan_le (cstr e))
    by (destruct (scan_le (cstr e)); reflexivity).
  rewrite Hassign in Hen. clear Hassign.
  set (phs2 := energy_line eng_scale i_eng lb1 phs) in *.
  destruct (fgets lb1 STRSZ rest) as [[lb2 inp2] |].
  - destruct (read_pshift nl 0 0 lb2 (i_eng * nl) (pshift phs2)) as [ps | |];
      try discriminate.
    apply read_energies_min_max in H.
    + destruct H as (K & _). rewrite K by lia.
      cbn [energy set_pshift]. rewrite Hen. apply nth_store_same. lia.
    + cbn [energy set_pshift]. intros j Hj. rewrite Hen.
      rewrite nth_store_other by lia. apply Hnone. lia.
    + cbn [energy set_pshift]. rewrite Hen, store_length. lia.
  - destruct i_eng as [| j]; [discriminate |].
    apply Return_inj, pair_equal_spec in H. destruct H as [<- _]. lia.
Qed.

End StoredEnergy.

(** ** Files given line by line *)

Section Lines.

Variable STRSZ : nat.

Lemma read_fields_of_line (nl : nat) (p stale : list ascii) (row : nat)
      (ps : list (option real)) :
  fields_in nl p = true ->
  exists ps', read_pshift nl 0 0 (p ++ NUL :: stale) row ps = Return ps'.
Proof.
  intros H. rewrite read_pshift_cells. cbn [skipn].
  apply fields_in_read. exact H.
Qed.

Lemma concat_lines_length (room : nat) (comments : list (list ascii)) :
  forallb (comment_line room) comments = true ->
  List.length comments <= List.length (List.concat comments).
Proof.
  induction comments as [| c cs IH]; simpl; [lia |].
  intros H. apply andb_true_iff in H. destruct H as [Hc Hcs].
  unfold comment_line in Hc. apply andb_true_iff in Hc. destruct Hc as [Hc _].
  pose proof (one_line_not_nil _ _ Hc). rewrite length_app.
  specialize (IH Hcs). destruct c; [congruence | simpl; lia].
Qed.

Lemma hd_app_line (room : nat) (l rest : list ascii) :
  one_line room l = true -> hd NUL (l ++ rest) = hd NUL l.
Proof.
  intros H. pose proof (one_line_not_nil _ _ H).
  destruct l; [congruence | reflexivity].
Qed.

(** Line 161 on a file that begins with comment lines and a first line. *)
Lemma skip_comments_lines (comments : list (list ascii)) :
  forall fuel lb header body,
    forallb (comment_line (STRSZ - 1)) comments = true ->
    first_line (STRSZ - 1) header = true ->
    List.length comments < fuel ->
    exists stale,
      skip_comments STRSZ fuel lb (List.concat comments ++ header ++ body)
      = Return (header ++ NUL :: stale, body).
Proof.
  induction comments as [| c cs IH]; intros fuel lb header body Hc Hh Hfuel;
    (destruct fuel as [| fuel]; [simpl in Hfuel; lia |]);
    cbn [skip_comments List.concat].
  - unfold first_line in Hh. apply andb_true_iff in Hh.
    destruct Hh as [Hline Hhd]. apply negb_true_iff in Hhd.
    cbn [app]. rewrite (fgets_one_line STRSZ lb header body Hline).
    rewrite (hd_app_line _ _ _ Hline), Hhd. eauto.
  - cbn [forallb] in Hc. apply andb_true_iff in Hc. destruct Hc as [Hc Hcs].
    unfold comment_line in Hc. apply andb_true_iff in Hc.
    destruct Hc as [Hline Hhd].
    rewrite <- app_assoc, (fgets_one_line STRSZ lb c _ Hline).
    rewrite (hd_app_line _ _ _ Hline), Hhd.
    apply IH; [exact Hcs | exact Hh | simpl in Hfuel; lia].
Qed.

(** Lines 161-172 on such a file. *)
Lemma read_header_lines (w : world) (filename : string)
      (comments : list (list ascii)) (header body : list ascii) (n l : Z) :
  forallb (comment_line (STRSZ - 1)) comments = true ->
  first_line (STRSZ - 1) header = true ->
  declared (sscanf_d_d_s header) = Some (n, l) ->
  exists eng_type stale,
    read_header STRSZ w filename (List.concat comments ++ header ++ body)
    = ([], Return (n, l, eng_type, body, header ++ NUL :: stale))
    /\ forall tok, sscanf_d_d_s header = Hdr3 n l tok ->
                   eng_scale_of eng_type = scale_of_token tok.
Proof.
  intros Hc Hh Hd. unfold read_header.
  destruct (skip_comments_lines comments
              (List.length (List.concat comments ++ header ++ body))
              (entry_array STRSZ (linebuffer_entry w)) header body Hc Hh)
    as (stale & Hskip).
  { rewrite !length_app. pose proof (concat_lines_length _ _ Hc).
    unfold first_line in Hh. apply andb_true_iff in Hh. destruct Hh as [Hh _].
    pose proof (one_line_not_nil _ _ Hh). destruct header; [congruence |].
    simpl. lia. }
  rewrite Hskip, bind_lift_Return, sscanf_d_d_s_line.
  destruct (sscanf_d_d_s header) as [| n1 | n1 l1 | n1 l1 tok] eqn:E;
    try discriminate; simpl in Hd; inversion Hd; subst.
  - eexists. exists stale. split; [reflexivity |]. discriminate.
  - eexists. exists stale. split; [reflexivity |].
    intros tok' E'. inversion E'; subst tok'.
    apply eng_scale_of_token. exact (unit_token_no_NUL _ _ _ _ E).
Qed.

(** The loop on a file whose next lines are complete pairs. *)
Lemma read_energies_pairs (eng_scale : real) (nl : nat)
      (pairs : list (list ascii * list ascii)) :
  forall todo i_eng rest lb phs,
    forallb (complete_pair (STRSZ - 1) nl) pairs = true ->
    List.length pairs <= todo ->
    (forall j, i_eng <= j -> nth j (energy phs) None = None) ->
    i_eng + todo <= List.length (energy phs) ->
    exists lb' phs1,
      read_energies STRSZ eng_scale nl todo i_eng (lines_of pairs ++ rest)
                    lb phs
      = read_energies STRSZ eng_scale nl (todo - List.length pairs)
                      (i_eng + List.length pairs) rest lb' phs1
      /\ (forall j, i_eng + List.length pairs <= j ->
            nth j (energy phs1) None = None)
      /\ List.length (energy phs1) = List.length (energy phs)
      /\ (forall j, j < i_eng ->
            nth j (energy phs1) None = nth j (energy phs) None)
      /\ (forall k, k < List.length pairs ->
            nth (i_eng + k) (energy phs1) None
            = scaled_energy eng_scale (fst (nth k pairs ([], [])))).
Proof.
  induction pairs as [| [e p] pairs IH]; intros todo i_eng rest lb phs
    Hok Htodo Hnone Hlen.
  - exists lb, phs. cbn [lines_of flat_map List.length app].
    rewrite Nat.sub_0_r, Nat.add_0_r.
    repeat split; auto. intros k Hk. simpl in Hk. lia.
  - cbn [forallb] in Hok. apply andb_true_iff in Hok.
    destruct Hok as [Hpair Hok]. unfold complete_pair in Hpair.
    cbn [fst snd] in Hpair. rewrite !andb_true_iff in Hpair.
    destruct Hpair as [[He Hp] Hfields].
    destruct todo as [| todo]; [simpl in Htodo; lia |].
    cbn [lines_of flat_map fst snd]. fold (lines_of pairs).
    rewrite <- !app_assoc. cbn [read_energies].
    rewrite (fgets_one_line STRSZ lb e _ He).
    set (lb1 := e ++ NUL :: skipn (S (List.length e)) lb).
    rewrite (fgets_one_line STRSZ lb1 p _ Hp).
    set (phs2 := energy_line eng_scale i_eng lb1 phs).
    destruct (read_fields_of_line nl p (skipn (S (List.length p)) lb1)
                (i_eng * nl) (pshift phs2) Hfields) as (ps & Hps).
    rewrite Hps.
    pose proof (energy_line_energy eng_scale i_eng lb1 phs) as Hen.
    fold phs2 in Hen. unfold lb1 in Hen at 1.
    rewrite sscanf_le_line, (Hnone i_eng) in Hen by lia.
    assert (Hassign : assign_scanned None (scan_le (cstr e))
                      = scan_le (cstr e))
      by (destruct (scan_le (cstr e)); reflexivity).
    rewrite Hassign in Hen. clear Hassign.
    destruct (IH todo (S i_eng) rest
                 (p ++ NUL :: skipn (S (List.length p)) lb1)
                 (set_pshift ps phs2) Hok)
      as (lb' & phs1 & Hrun & Hnone1 & Hlen1 & Hkeep1 & Hcells1).
    + simpl in Htodo. lia.
    + cbn [energy set_pshift]. intros j Hj. rewrite Hen.
      rewrite nth_store_other by lia. apply Hnone. lia.
    + cbn [energy set_pshift]. rewrite Hen, store_length. lia.
    + cbn [energy set_pshift] in *. exists lb', phs1.
      cbn [List.length]. rewrite Hrun.
      replace (S todo - S (List.length pairs))
        with (todo - List.length pairs) by lia.
      replace (i_eng + S (List.length pairs))
        with (S i_eng + List.length pairs) by lia.
      split; [reflexivity |]. split; [exact Hnone1 |].
      split; [rewrite Hlen1, Hen; apply store_length |].
      split.
      * intros j Hj. rewrite Hkeep1 by lia. rewrite Hen.
        apply nth_store_other. lia.
      * intros [| k] Hk.
        -- rewrite Nat.add_0_r, Hkeep1 by lia. rewrite Hen.
           cbn [nth fst]. apply nth_store_same. lia.
        -- replace (i_eng + S k) with (S i_eng + k) by lia.
           cbn [nth]. apply Hcells1. lia.
Qed.

End Lines.

Section WholeFiles.

Variable STRSZ : nat.

Lemma read_file_lines (w : world) (filename : string) (phs : leed_phase)
      (comments : list (list ascii)) (header body : list ascii) (n l : Z) :
  files w filename = Some (List.concat comments ++ header ++ body) ->
  forallb (comment_line (STRSZ - 1)) comments = true ->
  first_line (STRSZ - 1) header = true ->
  declared (sscanf_d_d_s header) = Some (n, l) ->
  exists eng_type lb,
    read_file STRSZ w filename phs
    = bind (emit (Fopen filename))
           (fun _ => read_tables STRSZ filename n l eng_type body lb
                                 (set_input_file filename phs))
    /\ forall tok, sscanf_d_d_s header = Hdr3 n l tok ->
                   eng_scale_of eng_type = scale_of_token tok.
Proof.
  intros Hfile Hc Hh Hd. unfold read_file. rewrite Hfile.
  destruct (read_header_lines STRSZ w filename comments header body n l
              Hc Hh Hd) as (eng_type & stale & Hhdr & Hscale).
  rewrite Hhdr. exists eng_type, (header ++ NUL :: stale).
  split; [| exact Hscale].
  rewrite (bind_ret (n, l, eng_type, body, header ++ NUL :: stale)).
  reflexivity.
Qed.


End WholeFiles.




(** ** A file cut short (lines 208-247 and 271-276) *)

Section CutShort.

Variable STRSZ : nat.

(** The loop when at most one line is left: nothing more is read to the
    end, and past index 0 the loop returns with the index it had. *)
Lemma read_energies_last_line (eng_scale : real) (nl todo i_eng : nat)
      (rest lb : list ascii) (phs : leed_phase) :
  snd (take_line (STRSZ - 1) rest) = [] ->
  exists q,
    read_energies STRSZ eng_scale nl todo (S i_eng) rest lb phs
    = Return (S i_eng, q).
Proof.
  intros Hlast. destruct todo as [| todo]; cbn [read_energies]; [eauto |].
  destruct rest as [| c rest]; [rewrite fgets_eof; eauto |].
  destruct (fgets_last STRSZ lb (c :: rest)) as (lb1 & Hlb1);
    [discriminate | exact Hlast |].
  rewrite Hlb1, fgets_eof. eauto.
Qed.

(** The tables of a file that declares three energies and holds two
    complete pairs and at most one line more. *)
Lemma read_tables_cut_short (filename : string) (l : Z)
      (eng_type e1 p1 e2 p2 rest lb : list ascii) (phs : leed_phase) :
  (0 <= l)%Z ->
  forallb (complete_pair (STRSZ - 1) (Z.to_nat l + 1)) [(e1, p1); (e2, p2)]
  = true ->
  snd (take_line (STRSZ - 1) rest) = [] ->
  exists phs',
    read_tables STRSZ filename 3 l eng_type
                (lines_of [(e1, p1); (e2, p2)] ++ rest) lb phs
    = ([WarningEOF 3 3 filename], Return phs')
    /\ n_eng phs' = Some 2
    /\ eng_min phs' = scaled_energy (eng_scale_of eng_type) e1
    /\ eng_max phs' = scaled_energy (eng_scale_of eng_type) e2.
Proof.
  intros Hl Hok Hlast. unfold read_tables.
  assert (Eneg : (3 <? 0)%Z || (l <? 0)%Z = false).
  { apply orb_false_iff. split; apply Z.ltb_ge; lia. }
  rewrite Eneg. change (Z.to_nat 3) with 3.
  set (s := eng_scale_of eng_type). set (nl := Z.to_nat l + 1) in *.
  set (phs0 := set_pshift _ (set_energy _ (set_lmax l phs))).
  assert (Hnone0 : forall j, 0 <= j -> nth j (energy phs0) None = None)
    by (intros j _; apply nth_malloc_None).
  assert (Hlen0 : List.length (energy phs0) = 3) by reflexivity.
  destruct (read_energies_pairs STRSZ s nl [(e1, p1); (e2, p2)] 3 0 rest lb
              phs0 Hok) as (lb' & phs1 & Hrun & Hnone & Hlen & _ & Hcells);
    [simpl; lia | exact Hnone0 | lia |].
  cbn [List.length Nat.add Nat.sub] in Hrun, Hnone, Hcells.
  destruct (read_energies_last_line s nl 1 1 rest lb' phs1 Hlast)
    as (q & Hq).
  rewrite Hq in Hrun.
  (* what the whole run and its last part did *)
  pose proof (read_energies_min_max STRSZ s nl 3 0 _ lb phs0 2 q Hnone0
                ltac:(lia) Hrun) as (_ & _ & _ & Hmin & Hmax & _).
  pose proof (read_energies_min_max STRSZ s nl 1 2 rest lb' phs1 2 q Hnone
                ltac:(lia) Hq) as (Hkeep & _).
  rewrite Hrun, bind_lift_Return. cbn [Nat.eqb negb Nat.add].
  exists (set_n_eng 2 q). split; [reflexivity |]. split; [reflexivity |].
  cbn [eng_min eng_max set_n_eng Nat.sub].
  rewrite Hmin, Hmax by lia. cbn [Nat.sub].
  rewrite !Hkeep by lia.
  split; [exact (Hcells 0 ltac:(lia)) | exact (Hcells 1 ltac:(lia))].
Qed.

End CutShort.

(** A request no set in the list answers, for a file of comment lines, a
    first line that declares three energies, two complete pairs of lines,
    each line of phase shifts with its fields inside the line, and at most
    one line more: the call returns with the new index and the warning. *)
Lemma cut_short_file_is_read (STRSZ : nat) (tol : real) (IEND : Z) (w : world)
        (phaseinp filename : string) (d : displacement) (st : repository)
        (comments : list (list ascii)) (header e1 p1 e2 p2 rest : list ascii)
        (l : Z) :
  make_filename w phaseinp = ret filename ->
  lookup tol filename d st = Return None ->
  files w filename
  = Some (List.concat comments ++ header
            ++ lines_of [(e1, p1); (e2, p2)] ++ rest) ->
  forallb (comment_line (STRSZ - 1)) comments = true ->
  first_line (STRSZ - 1) header = true ->
  declared (sscanf_d_d_s header) = Some (3%Z, l) -> (0 <= l)%Z ->
  forallb (complete_pair (STRSZ - 1) (Z.to_nat l + 1)) [(e1, p1); (e2, p2)]
  = true ->
  snd (take_line (STRSZ - 1) rest) = [] ->
  exists st' phs eng_scale,
    leed_inp_phase STRSZ tol IEND w phaseinp d st
    = ([Fopen filename; WarningEOF 3 3 filename], Return (i_phase st, st'))
    /\ nth_error (phs_shifts st') (i_phase st) = Some phs
    /\ n_eng phs = Some 2
    /\ eng_min phs = scaled_energy eng_scale e1
    /\ eng_max phs = scaled_energy eng_scale e2
    /\ forall tok, sscanf_d_d_s header = Hdr3 3 l tok ->
                   eng_scale = scale_of_token tok.
Proof.
  intros Hname Hmiss Hfile Hc Hh Hd Hl Hok Hlast.
  set (phs0 := set_dr d (nth (i_phase st) (grow IEND st) fresh_slot)).
  destruct (read_file_lines STRSZ w filename phs0 comments header
              (lines_of [(e1, p1); (e2, p2)] ++ rest) 3 l Hfile Hc Hh Hd)
    as (eng_type & lb & Hread & Hscale).
  destruct (read_tables_cut_short STRSZ filename l eng_type e1 p1 e2 p2 rest
              lb (set_input_file filename phs0) Hl Hok Hlast)
    as (phs & Htab & Hcount & Hmin & Hmax).
  assert (Hfile' : read_file STRSZ w filename phs0
                   = ([Fopen filename; WarningEOF 3 3 filename], Return phs)).
  { rewrite Hread, Htab. reflexivity. }
  exists (mk_repo (S (i_phase st)) (store (i_phase st) phs (grow IEND st))),
         phs, (eng_scale_of eng_type).
  split.
  - unfold leed_inp_phase. rewrite Hname, bind_ret.
    apply phase_of_file_miss; assumption.
  - split; [| auto].
    cbn [phs_shifts]. apply nth_error_store_same. rewrite grow_length. lia.
Qed.

(** ** Any file, line by line *)

Section AnyFile.

Variable STRSZ : nat.

Lemma fgets_lines (lb inp : list ascii) :
  inp <> [] ->
  fgets lb STRSZ inp
  = Some (line_at STRSZ 0 inp
            ++ NUL :: skipn (S (List.length (line_at STRSZ 0 inp))) lb,
          drop_line STRSZ inp).
Proof.
  intros H. unfold fgets, line_at, drop_line. cbn [Nat.iter nat_rect].
  destruct inp as [| c t]; [congruence |].
  destruct (take_line (STRSZ - 1) (c :: t)). reflexivity.
Qed.

Lemma drop_line_nil : drop_line STRSZ [] = [].
Proof. unfold drop_line. destruct (STRSZ - 1); reflexivity. Qed.

Lemma iter_drop_line_nil (k : nat) : Nat.iter k (drop_line STRSZ) [] = [].
Proof.
  induction k as [| k IH]; [reflexivity |].
  rewrite Nat.iter_succ, IH. apply drop_line_nil.
Qed.

Lemma line_at_later (k m : nat) (inp : list ascii) :
  line_at STRSZ (k + m) inp
  = line_at STRSZ k (Nat.iter m (drop_line STRSZ) inp).
Proof. unfold line_at. rewrite Nat.iter_add. reflexivity. Qed.

(** Every energy a returning run stored is the scaled value of its line:
    the energy at index [i_eng + k] comes from line [2 k] of the input the
    loop was entered with. *)
Lemma stored_energies (eng_scale : real) (nl todo : nat) :
  forall i_eng inp lb phs i' phs',
    (forall j, i_eng <= j -> nth j (energy phs) None = None) ->
    i_eng + todo <= List.length (energy phs) ->
    read_energies STRSZ eng_scale nl todo i_eng inp lb phs = Return (i', phs') ->
    forall k, i_eng + k < i' ->
      nth (i_eng + k) (energy phs') None
      = scaled_energy eng_scale (line_at STRSZ (2 * k) inp).
Proof.
  induction todo as [| todo IH]; intros i_eng inp lb phs i' phs' Hnone Hlen H k Hk;
    cbn [read_energies] in H.
  - apply Return_inj, pair_equal_spec in H. destruct H as [<- _]. lia.
  - destruct inp as [| c t].
    { rewrite fgets_eof in H.
      apply Return_inj, pair_equal_spec in H. destruct H as [<- _]. lia. }
    rewrite (fgets_lines lb (c :: t)) in H by discriminate.
    set (inp := c :: t) in *.
    set (lb1 := line_at STRSZ 0 inp ++ NUL :: _) in H.
    pose proof (energy_line_energy eng_scale i_eng lb1 phs) as Hen.
    unfold lb1 in Hen at 2.
    rewrite sscanf_le_line, (Hnone i_eng) in Hen by lia.
    assert (Hassign : forall x : option real, assign_scanned None x = x)
      by (intros [x |]; reflexivity).
    rewrite Hassign in Hen. fold (scaled_energy eng_scale (line_at STRSZ 0 inp))
      in Hen.
    set (phs2 := energy_line eng_scale i_eng lb1 phs) in *.
    destruct (drop_line STRSZ inp) as [| c1 t1] eqn:Edrop.
    { rewrite fgets_eof in H. destruct i_eng as [| j]; [discriminate |].
      apply Return_inj, pair_equal_spec in H. destruct H as [<- _]. lia. }
    rewrite (fgets_lines lb1 (c1 :: t1)) in H by discriminate.
    set (lb2 := line_at STRSZ 0 (c1 :: t1) ++ NUL :: _) in H.
    destruct (read_pshift nl 0 0 lb2 (i_eng * nl) (pshift phs2)) as [ps | |];
      try discriminate.
    assert (Hnone2 : forall j, S i_eng <= j ->
                       nth j (energy (set_pshift ps phs2)) None = None).
    { cbn [energy set_pshift]. intros j Hj. rewrite Hen.
      rewrite nth_store_other by lia. apply Hnone. lia. }
    assert (Hlen2 : S i_eng + todo
                    <= List.length (energy (set_pshift ps phs2))).
    { cbn [energy set_pshift]. rewrite Hen, store_length. lia. }
    destruct k as [| k].
    + apply read_energies_min_max in H; [| exact Hnone2 | exact Hlen2].
      destruct H as (K & _). rewrite Nat.add_0_r, K by lia.
      cbn [energy set_pshift]. rewrite Hen. apply nth_store_same. lia.
    + replace (i_eng + S k) with (S i_eng + k) by lia.
      rewrite (IH _ _ _ _ _ _ Hnone2 Hlen2 H k) by lia.
      replace (2 * S k) with (2 * k + 2) by lia.
      rewrite line_at_later. cbn [Nat.iter nat_rect]. rewrite Edrop. reflexivity.
Qed.



(** [read_header] emits nothing when it returns. *)
Lemma read_header_Return (w : world) (filename : string) (inp : list ascii)
      tr r :
  read_header STRSZ w filename inp = (tr, Return r) -> tr = [].
Proof.
  unfold read_header. intros H.
  destruct (skip_comments STRSZ (List.length inp) _ inp) as [[lb inp1] | |];
    try discriminate.
  rewrite bind_lift_Return in H.
  destruct (sscanf_d_d_s lb); try discriminate; inversion H; reflexivity.
Qed.

(** The scale of a first line with a unit token. *)
Lemma read_header_scale (w : world) (filename : string)
      (inp body lb eng_type tok : list ascii) tr (n l : Z) :
  read_header STRSZ w filename inp = (tr, Return (n, l, eng_type, body, lb)) ->
  sscanf_d_d_s lb = Hdr3 n l tok ->
  eng_scale_of eng_type = scale_of_token tok.
Proof.
  unfold read_header. intros H Hhdr.
  destruct (skip_comments STRSZ (List.length inp) _ inp) as [[lb1 inp1] | |];
    try discriminate.
  rewrite bind_lift_Return in H.
  destruct (sscanf_d_d_s lb1) as [| n1 | n1 l1 | n1 l1 tok1] eqn:E;
    try discriminate; inversion H; subst.
  - congruence.
  - assert (tok1 = tok) by congruence. subst tok1.
    apply eng_scale_of_token. exact (unit_token_no_NUL _ _ _ _ E).
Qed.

End AnyFile.

(** C2 (as amended).  For every file the function reads to its return: when
    the first line that is no comment has a unit token, the scale is
    1/27.18 for a token that begins with [eV] or [EV], 2/27.18 for one that
    begins with [Ry] or [RY], and 1 for any other token, [ev] and [ry]
    among them (two characters count, compared as they are); and every
    energy stored, the one at index [k] from line [2 k] after the first
    line, is the value scanned from its line times the scale. *)
Theorem C2_energy_scale (STRSZ : nat) (w : world) (filename : string)
        (phs phs' : leed_phase) (tr : list event) :
  read_file STRSZ w filename phs = (tr, Return phs') ->
  exists inp n l eng_type body lb i_eng,
    files w filename = Some inp
    /\ read_header STRSZ w filename inp
       = ([], Return (n, l, eng_type, body, lb))
    /\ (forall tok,
          sscanf_d_d_s lb = Hdr3 n l tok ->
          eng_scale_of eng_type
          = if begins (list_ascii_of_string "eV") tok
               || begins (list_ascii_of_string "EV") tok
            then (1 / 27.18)%Q
            else if begins (list_ascii_of_string "Ry") tok
                    || begins (list_ascii_of_string "RY") tok
            then (2 / 27.18)%Q
            else 1%Q)
    /\ n_eng phs' = Some i_eng
    /\ forall k, k < i_eng ->
         nth k (energy phs') None
         = scaled_energy (eng_scale_of eng_type)
                         (line_at STRSZ (2 * k) body).
Proof.
  unfold read_file. intros H.
  apply bind_Return_inv in H. destruct H as (tr1 & [] & tr2 & _ & H & ->).
  destruct (files w filename) as [inp |] eqn:Hfile.
  2:{ apply bind_Return_inv in H. destruct H as (? & ? & ? & _ & H & _).
      discriminate. }
  apply bind_Return_inv in H.
  destruct H as (tr3 & [[[[n l] eng_type] body] lb] & tr4 & Hhdr & H & ->).
  pose proof (read_header_Return STRSZ w filename inp _ _ Hhdr). subst tr3.
  unfold read_tables in H.
  destruct ((n <? 0)%Z || (l <? 0)%Z); [discriminate |].
  apply bind_Return_inv in H.
  destruct H as (tr5 & [i_eng q] & tr6 & Hrun & H & ->).
  apply lift_inv in Hrun. destruct Hrun as [-> Hrun]. symmetry in Hrun.
  apply bind_Return_inv in H. destruct H as (tr7 & [] & tr8 & _ & H & ->).
  assert (E : phs' = set_n_eng i_eng q) by (inversion H; reflexivity).
  subst phs'.
  exists inp, n, l, eng_type, body, lb, i_eng.
  split; [reflexivity |]. split; [exact Hhdr |]. split.
  - intros tok Htok.
    exact (read_header_scale STRSZ w filename inp body lb eng_type tok []
             n l Hhdr Htok).
  - split; [reflexivity |]. intros k Hk. cbn [energy set_n_eng].
    refine (stored_energies STRSZ (eng_scale_of eng_type) (Z.to_nat l + 1)
              (Z.to_nat n) 0 body lb _ i_eng q _ _ Hrun k _).
    + intros j _. cbn [energy set_pshift set_energy]. apply nth_malloc_None.
    + cbn [energy set_pshift set_energy]. unfold malloc.
      rewrite repeat_length. lia.
    + lia.
Qed.

Lemma C2_energy_scale_witness :
  exists inp n l eng_type body lb i_eng,
    files cu_world "/phs/cu.phs" = Some inp
    /\ read_header 256 cu_world "/phs/cu.phs" inp
       = ([], Return (n, l, eng_type, body, lb))
    /\ (forall tok,
          sscanf_d_d_s lb = Hdr3 n l tok ->
          eng_scale_of eng_type
          = if begins (list_ascii_of_string "eV") tok
               || begins (list_ascii_of_string "EV") tok
            then (1 / 27.18)%Q
            else if begins (list_ascii_of_string "Ry") tok
                    || begins (list_ascii_of_string "RY") tok
            then (2 / 27.18)%Q
            else 1%Q)
    /\ n_eng (slot_read (read_file 256 cu_world "/phs/cu.phs" fresh_slot))
       = Some i_eng
    /\ forall k, k < i_eng ->
         nth k (energy (slot_read (read_file 256 cu_world "/phs/cu.phs"
                                             fresh_slot))) None
         = scaled_energy (eng_scale_of eng_type)
                         (line_at 256 (2 * k) body).
Proof.
  apply (C2_energy_scale 256 cu_world "/phs/cu.phs" fresh_slot
           (slot_read (read_file 256 cu_world "/phs/cu.phs" fresh_slot))
           [Fopen "/phs/cu.phs"]).
  vm_compute. reflexivity.
Defined.

(** C2 as stated fails.  The first line of [small_unit_file] has the unit
    token [ev]; compared without regard to case it would give the scale
    1/27.18, but the energy 27.18 of the file is stored with the scale 1. *)
Lemma C2_counterexample :
  sscanf_d_d_s (list_ascii_of_string "1 0 ev" ++ [LF])
  = Hdr3 1 0 (list_ascii_of_string "ev")
  /\ energy (slot_read (read_file 256 cu_world "/phs/ag.phs" fresh_slot))
     = [Some (27.18 * 1)%Q]
  /\ scale_without_case (list_ascii_of_string "ev") = (1 / HART)%Q
  /\ ~ (27.18 * 1 == 27.18 * (1 / HART))%Q.
Proof.
  split; [vm_compute; reflexivity |].
  split; [vm_compute; reflexivity |].
  split; [vm_compute; reflexivity |].
  vm_compute. discriminate.
Qed.



(** * Further properties of [leed_inp_phase] *)

(** ** The list over many calls (lines 97-133 and 278) *)




Section Kept.

Variable STRSZ : nat.
Variable tol : real.
Variable IEND : Z.







End Kept.










(** ** The ways the function ends the program (lines 87-91, 146-150, 168-172) *)

Lemma bind_Exit_inv {A B : Type} (m : M A) (k : A -> M B) tr s :
  bind m k = (tr, Exit s) ->
  m = (tr, Exit s)
  \/ exists tr1 a tr2,
       m = (tr1, Return a) /\ k a = (tr2, Exit s) /\ tr = tr1 ++ tr2.
Proof.
  destruct m as [tr1 [a | s1 | u]]; simpl; try discriminate.
  - destruct (k a) as [tr2 o] eqn:Hk. intros H. inversion H; subst.
    right. exists tr1, a, tr2. auto.
  - intros H. inversion H; subst. left. reflexivity.
Qed.

Lemma find_phase_no_Exit (tol : real) (filename : string) (d : displacement)
      (todo : nat) :
  forall i slots s, find_phase tol filename d todo i slots <> Exit s.
Proof.
  induction todo as [| todo IH]; intros i slots s; simpl; [discriminate |].
  destruct (nth_error slots i) as [p |]; [| discriminate].
  destruct (input_file p) as [f |]; [| discriminate].
  destruct (String.eqb f filename); [| apply IH].
  destruct (dr p) as [stored |]; [| discriminate].
  destruct (same_dr tol d stored); [discriminate | apply IH].
Qed.

Lemma lookup_no_Exit (tol : real) (filename : string) (d : displacement)
      (st : repository) (s : Z) :
  lookup tol filename d st <> Exit s.
Proof.
  unfold lookup. destruct (0 <? i_phase st); [| discriminate].
  apply find_phase_no_Exit.
Qed.

Lemma skip_comments_no_Exit (STRSZ fuel : nat) :
  forall lb inp s, skip_comments STRSZ fuel lb inp <> Exit s.
Proof.
  induction fuel as [| fuel IH]; intros lb inp s; simpl; [discriminate |].
  destruct (fgets lb STRSZ inp) as [[lb1 inp1] |]; [| discriminate].
  destruct (Ascii.eqb (hd NUL lb1) "#"); [apply IH | discriminate].
Qed.

Lemma read_energies_no_Exit (STRSZ : nat) (eng_scale : real) (nl todo : nat) :
  forall i_eng inp lb phs s,
    read_energies STRSZ eng_scale nl todo i_eng inp lb phs <> Exit s.
Proof.
  induction todo as [| todo IH]; intros i_eng inp lb phs s;
    cbn [read_energies]; [discriminate |].
  destruct (fgets lb STRSZ inp) as [[lb1 inp1] |]; [| discriminate].
  destruct (fgets lb1 STRSZ inp1) as [[lb2 inp2] |].
  - pose proof (read_pshift_Undefined nl 0 0 lb2 (i_eng * nl)
                  (pshift (energy_line eng_scale i_eng lb1 phs))) as Hp.
    destruct (read_pshift nl 0 0 lb2 (i_eng * nl) _) as [ps | |].
    + apply IH.
    + contradiction.
    + discriminate.
  - destruct i_eng; discriminate.
Qed.

Lemma read_tables_no_Exit (STRSZ : nat) (filename : string) (n l : Z)
      (eng_type inp lb : list ascii) (phs : leed_phase) tr s :
  read_tables STRSZ filename n l eng_type inp lb phs <> (tr, Exit s).
Proof.
  unfold read_tables. destruct ((n <? 0)%Z || (l <? 0)%Z); [discriminate |].
  intros H. apply bind_Exit_inv in H.
  destruct H as [H | (tr1 & [i_eng q] & tr2 & _ & H & _)].
  - apply lift_inv in H. destruct H as [_ H]. symmetry in H.
    exact (read_energies_no_Exit _ _ _ _ _ _ _ _ _ H).
  - destruct (negb (i_eng =? Z.to_nat n)); discriminate.
Qed.

(** What [read_header] does after the comment lines. *)
Lemma read_header_after_comments (STRSZ : nat) (w : world)
      (filename : string) (inp lb rest : list ascii) :
  skip_comments STRSZ (List.length inp)
                (entry_array STRSZ (linebuffer_entry w)) inp
  = Return (lb, rest) ->
  read_header STRSZ w filename inp
  = match sscanf_d_d_s lb with
    | Hdr0 | Hdr1 _ =>
        ([ErrorMsg ("improper input line in file " ++ filename)], Exit 1)
    | Hdr2 n l =>
        ret (n, l, entry_array STRSZ (eng_type_entry w), rest, lb)
    | Hdr3 n l tok =>
        ret (n, l,
             tok ++ NUL :: skipn (S (List.length tok))
                                 (entry_array STRSZ (eng_type_entry w)),
             rest, lb)
    end.
Proof.
  intros H. unfold read_header. rewrite H, bind_lift_Return.
  destruct (sscanf_d_d_s lb); reflexivity.
Qed.

Lemma read_file_Exit (STRSZ : nat) (w : world) (filename : string)
      (phs : leed_phase) tr s :
  read_file STRSZ w filename phs = (tr, Exit s) ->
  s = 1%Z
  /\ ((files w filename = None
       /\ tr = [Fopen filename; ErrorMsg ("could not open file " ++ filename)])
      \/ exists inp lb rest,
           files w filename = Some inp
           /\ skip_comments STRSZ (List.length inp)
                            (entry_array STRSZ (linebuffer_entry w)) inp
              = Return (lb, rest)
           /\ declared (sscanf_d_d_s lb) = None
           /\ tr = [Fopen filename;
                    ErrorMsg ("improper input line in file " ++ filename)]).
Proof.
  unfold read_file. destruct (files w filename) as [inp |].
  2:{ intros H. inversion H; subst. split; [reflexivity |]. left. auto. }
  intros H. apply bind_Exit_inv in H.
  destruct H as [H | (tr1 & [] & tr2 & H1 & H & ->)]; [discriminate |].
  inversion H1; subst tr1. clear H1.
  apply bind_Exit_inv in H.
  destruct H as [H | (tr1 & [[[[n l] eng_type] body] lb] & tr3 & _ & H & _)].
  2:{ exfalso. exact (read_tables_no_Exit _ _ _ _ _ _ _ _ _ _ H). }
  destruct (skip_comments STRSZ (List.length inp)
              (entry_array STRSZ (linebuffer_entry w)) inp)
    as [[lb rest] | s1 | u] eqn:Eskip.
  - rewrite (read_header_after_comments _ _ _ _ _ _ Eskip) in H.
    destruct (sscanf_d_d_s lb) as [| n | n l | n l tok] eqn:Ehdr;
      try discriminate; inversion H; subst;
      (split; [reflexivity |]); right; exists inp, lb, rest;
      rewrite Ehdr; auto.
  - exfalso. exact (skip_comments_no_Exit _ _ _ _ _ Eskip).
  - unfold read_header in H. rewrite Eskip in H. discriminate.
Qed.

(** X5.  The function ends the program in three situations and no other,
    always with status 1 and after one message: the name is relative and
    [CLEED_PHASE] is not set (nothing was opened); no set in the list
    answers and the file cannot be opened; no set answers and the first line
    of the file that is no comment does not begin with two integers.  A file
    cut short, a file without energies and a request the list answers never
    end the program. *)
Theorem exits_of_leed_inp_phase (STRSZ : nat) (tol : real) (IEND : Z)
        (w : world) (phaseinp : string) (d : displacement) (st : repository)
        (tr : list event) (s : Z) :
  leed_inp_phase STRSZ tol IEND w phaseinp d st = (tr, Exit s)
  <-> s = 1%Z
      /\ ((starts_with_slash phaseinp = false
           /\ getenv_CLEED_PHASE w = None
           /\ tr = [ErrorMsg "environment variable CLEED_PHASE not defined"])
          \/ exists filename,
               make_filename w phaseinp = ret filename
               /\ lookup tol filename d st = Return None
               /\ ((files w filename = None
                    /\ tr = [Fopen filename;
                             ErrorMsg ("could not open file " ++ filename)])
                   \/ exists inp lb rest,
                        files w filename = Some inp
                        /\ skip_comments STRSZ (List.length inp)
                             (entry_array STRSZ (linebuffer_entry w)) inp
                           = Return (lb, rest)
                        /\ declared (sscanf_d_d_s lb) = None
                        /\ tr = [Fopen filename;
                                 ErrorMsg ("improper input line in file "
                                           ++ filename)])).
Proof.
  split.
  - unfold leed_inp_phase. intros H.
    destruct (make_filename w phaseinp) as [tr0 [filename | s0 | u]] eqn:Ename.
    + assert (Eret : tr0 = []).
      { unfold make_filename in Ename.
        destruct (negb (starts_with_slash phaseinp));
          [destruct (getenv_CLEED_PHASE w) |]; inversion Ename; reflexivity. }
      subst tr0. change ([], Return filename) with (ret filename) in H.
      rewrite bind_ret in H. unfold phase_of_file in H.
      destruct (lookup tol filename d st) as [[k |] | s1 | u] eqn:El.
      * rewrite bind_lift_Return in H. discriminate.
      * rewrite bind_lift_Return in H. apply bind_Exit_inv in H.
        destruct H as [H | (? & ? & ? & _ & H & _)]; [| discriminate].
        apply read_file_Exit in H. destruct H as [-> H].
        split; [reflexivity |]. right. exists filename. auto.
      * exfalso. exact (lookup_no_Exit _ _ _ _ _ El).
      * discriminate.
    + unfold make_filename in Ename.
      destruct (starts_with_slash phaseinp) eqn:Eslash; cbn [negb] in Ename;
        [discriminate |].
      destruct (getenv_CLEED_PHASE w) eqn:Eenv; [discriminate |].
      inversion Ename; subst. inversion H; subst.
      split; [reflexivity |]. left. auto.
    + discriminate.
  - intros [-> [(Eslash & Eenv & ->) | (filename & Ename & El & H)]].
    + unfold leed_inp_phase, make_filename. rewrite Eslash, Eenv. reflexivity.
    + unfold leed_inp_phase. rewrite Ename, bind_ret.
      unfold phase_of_file. rewrite El, bind_lift_Return.
      destruct H as [[Efile ->] | (inp & lb & rest & Efile & Eskip & Ehdr & ->)].
      * unfold read_file. rewrite Efile. reflexivity.
      * unfold read_file. rewrite Efile.
        rewrite (read_header_after_comments _ _ _ _ _ _ Eskip).
        destruct (sscanf_d_d_s lb); try discriminate; reflexivity.
Qed.

(** ** A file without a first line (lines 161-167) *)

Lemma skip_comments_only (STRSZ : nat) (comments : list (list ascii)) :
  forall fuel lb,
    forallb (comment_line (STRSZ - 1)) comments = true ->
    skip_comments STRSZ fuel lb (List.concat comments)
    = Undefined NullDereference.
Proof.
  induction comments as [| c cs IH]; intros fuel lb Hc;
    (destruct fuel as [| fuel]; [reflexivity |]);
    cbn [skip_comments List.concat].
  - reflexivity.
  - cbn [forallb] in Hc. apply andb_true_iff in Hc. destruct Hc as [Hc Hcs].
    unfold comment_line in Hc. apply andb_true_iff in Hc.
    destruct Hc as [Hline Hhd].
    rewrite (fgets_one_line STRSZ lb c _ Hline).
    rewrite (hd_app_line _ _ _ Hline), Hhd.
    apply IH. exact Hcs.
Qed.

(** X6.  A file that is empty, or holds comment lines and nothing else,
    makes the loop of line 161 dereference the null pointer [fgets] returns
    at the end of the file: the call neither returns nor ends the program
    with the message of line 165, which tests the array [linebuffer]
    against NULL. *)
Theorem file_without_first_line (STRSZ : nat) (tol : real) (IEND : Z)
        (w : world) (phaseinp filename : string) (d : displacement)
        (st : repository) (comments : list (list ascii)) :
  make_filename w phaseinp = ret filename ->
  lookup tol filename d st = Return None ->
  files w filename = Some (List.concat comments) ->
  forallb (comment_line (STRSZ - 1)) comments = true ->
  leed_inp_phase STRSZ tol IEND w phaseinp d st
  = ([Fopen filename], Undefined NullDereference).
Proof.
  intros Hname Hmiss Hfile Hc.
  unfold leed_inp_phase. rewrite Hname, bind_ret.
  unfold phase_of_file. rewrite Hmiss, bind_lift_Return.
  unfold read_file. rewrite Hfile. unfold read_header.
  rewrite (skip_comments_only STRSZ comments _ _ Hc). reflexivity.
Qed.

Lemma file_without_first_line_witness :
  call shelf_world "notes" at_rest cu_list
  = ([Fopen "/phs/notes.phs"], Undefined NullDereference).
Proof.
  apply (file_without_first_line 256 0.0001 (-9999) shelf_world "notes"
           "/phs/notes.phs" at_rest cu_list
           [list_ascii_of_string "# no data yet" ++ [LF];
            list_ascii_of_string "# to be computed" ++ [LF]]).
  - reflexivity.
  - vm_compute. reflexivity.
  - reflexivity.
  - vm_compute. reflexivity.
Defined.

(** ** A file that declares no energy (lines 201-210 and 247) *)




(** ** When the warning is printed (lines 208-210 and 271-276) *)

Section Short.

Variable STRSZ : nat.

Lemma iter_drop_line_more (k m : nat) (inp : list ascii) :
  Nat.iter k (drop_line STRSZ) inp = [] ->
  Nat.iter (m + k) (drop_line STRSZ) inp = [].
Proof.
  intros H. rewrite Nat.iter_add, H. apply iter_drop_line_nil.
Qed.

(** A run that stops before its last energy met the end of the file. *)
Lemma read_energies_short (eng_scale : real) (nl todo : nat) :
  forall i_eng inp lb phs i' phs',
    read_energies STRSZ eng_scale nl todo i_eng inp lb phs = Return (i', phs') ->
    i' < i_eng + todo ->
    Nat.iter (2 * (i' - i_eng) + 1) (drop_line STRSZ) inp = [].
Proof.
  induction todo as [| todo IH]; intros i_eng inp lb phs i' phs' H Hlt;
    cbn [read_energies] in H.
  - apply Return_inj, pair_equal_spec in H. destruct H as [<- _]. lia.
  - destruct inp as [| c t].
    { apply iter_drop_line_nil. }
    rewrite (fgets_lines STRSZ lb (c :: t)) in H by discriminate.
    set (inp := c :: t) in *.
    destruct (drop_line STRSZ inp) as [| c1 t1] eqn:Edrop.
    { rewrite fgets_eof in H. destruct i_eng as [| j]; [discriminate |].
      apply Return_inj, pair_equal_spec in H. destruct H as [<- _].
      replace (2 * (S j - S j) + 1) with 1 by lia.
      cbn [Nat.iter nat_rect]. exact Edrop. }
    rewrite (fgets_lines STRSZ _ (c1 :: t1)) in H by discriminate.
    destruct (read_pshift nl 0 0 _ (i_eng * nl) _) as [ps | |];
      try discriminate.
    pose proof (read_energies_bound _ _ _ _ _ _ _ _ _ _ H) as [Hb _].
    apply IH in H; [| lia].
    replace (2 * (i' - i_eng) + 1) with (2 * (i' - S i_eng) + 1 + 2) by lia.
    rewrite Nat.iter_add. cbn [Nat.iter nat_rect] in *. rewrite Edrop.
    exact H.
Qed.

(** A run that read all its energies found two lines for each. *)
Lemma read_energies_full (eng_scale : real) (nl todo : nat) :
  forall i_eng inp lb phs phs',
    read_energies STRSZ eng_scale nl (S todo) i_eng inp lb phs
    = Return (i_eng + S todo, phs') ->
    Nat.iter (2 * todo + 1) (drop_line STRSZ) inp <> [].
Proof.
  induction todo as [| todo IH]; intros i_eng inp lb phs phs' H.
  - cbn [read_energies] in H.
    destruct inp as [| c t].
    { rewrite fgets_eof in H.
      apply Return_inj, pair_equal_spec in H. destruct H as [H _]. lia. }
    rewrite (fgets_lines STRSZ lb (c :: t)) in H by discriminate.
    cbn [Nat.mul Nat.add Nat.iter nat_rect].
    destruct (drop_line STRSZ (c :: t)) as [| c1 t1]; [| discriminate].
    rewrite fgets_eof in H. destruct i_eng as [| j]; [discriminate |].
    apply Return_inj, pair_equal_spec in H. destruct H as [H _]. lia.
  - remember (S todo) as todo1 eqn:Etodo. cbn [read_energies] in H.
    destruct inp as [| c t].
    { rewrite fgets_eof in H.
      apply Return_inj, pair_equal_spec in H. destruct H as [H _]. lia. }
    rewrite (fgets_lines STRSZ lb (c :: t)) in H by discriminate.
    set (inp := c :: t) in *.
    destruct (drop_line STRSZ inp) as [| c1 t1] eqn:Edrop.
    { rewrite fgets_eof in H. destruct i_eng as [| j]; [discriminate |].
      apply Return_inj, pair_equal_spec in H. destruct H as [H _]. lia. }
    rewrite (fgets_lines STRSZ _ (c1 :: t1)) in H by discriminate.
    destruct (read_pshift nl 0 0 _ (i_eng * nl) _) as [ps | |];
      try discriminate.
    subst todo1.
    replace (i_eng + S (S todo)) with (S i_eng + S todo) in H by lia.
    apply IH in H.
    replace (2 * S todo + 1) with (2 * todo + 1 + 2) by lia.
    rewrite Nat.iter_add. cbn [Nat.iter nat_rect] in *. rewrite Edrop.
    exact H.
Qed.

End Short.

(** X8.  For every file the function reads to its return, with [n] the
    number of energies its first line declares and [i_eng] the number
    stored in [n_eng]: [i_eng] is at most [n]; when it is [n] nothing is
    printed and the file had two lines for every energy; when it is less
    the file ended within [2 i_eng + 1] lines after the first line, and the
    one message is the warning of line 273, which gives [n] as expected and
    [i_eng + 1] as found. *)
Theorem warning_when_short (STRSZ : nat) (w : world) (filename : string)
        (phs phs' : leed_phase) (tr : list event) :
  read_file STRSZ w filename phs = (tr, Return phs') ->
  exists inp n l eng_type body lb i_eng,
    files w filename = Some inp
    /\ read_header STRSZ w filename inp
       = ([], Return (n, l, eng_type, body, lb))
    /\ n_eng phs' = Some i_eng
    /\ ((i_eng = Z.to_nat n
         /\ tr = [Fopen filename]
         /\ (0 < i_eng ->
             Nat.iter (2 * i_eng - 1) (drop_line STRSZ) body <> []))
        \/ (i_eng < Z.to_nat n
            /\ tr = [Fopen filename;
                     WarningEOF (Z.to_nat n) (i_eng + 1) filename]
            /\ Nat.iter (2 * i_eng + 1) (drop_line STRSZ) body = [])).
Proof.
  unfold read_file. intros H.
  apply bind_Return_inv in H. destruct H as (tr1 & [] & tr2 & H1 & H & ->).
  inversion H1; subst tr1. clear H1.
  destruct (files w filename) as [inp |] eqn:Hfile.
  2:{ apply bind_Return_inv in H. destruct H as (? & ? & ? & _ & H & _).
      discriminate. }
  apply bind_Return_inv in H.
  destruct H as (tr3 & [[[[n l] eng_type] body] lb] & tr4 & Hhdr & H & ->).
  pose proof (read_header_Return STRSZ w filename inp _ _ Hhdr). subst tr3.
  unfold read_tables in H.
  destruct ((n <? 0)%Z || (l <? 0)%Z); [discriminate |].
  apply bind_Return_inv in H.
  destruct H as (tr5 & [i_eng q] & tr6 & Hrun & H & ->).
  apply lift_inv in Hrun. destruct Hrun as [-> Hrun]. symmetry in Hrun.
  apply bind_Return_inv in H. destruct H as (tr7 & [] & tr8 & Hw & H & ->).
  assert (E : phs' = set_n_eng i_eng q /\ tr8 = [])
    by (inversion H; auto).
  destruct E as [-> ->].
  exists inp, n, l, eng_type, body, lb, i_eng.
  split; [reflexivity |]. split; [exact Hhdr |]. split; [reflexivity |].
  pose proof (read_energies_bound _ _ _ _ _ _ _ _ _ _ Hrun) as [Hb _].
  destruct (i_eng =? Z.to_nat n) eqn:E; cbn [negb] in Hw.
  - apply Nat.eqb_eq in E. left. split; [exact E |].
    inversion Hw; subst tr7. split; [reflexivity |].
    intros Hpos. destruct (Z.to_nat n) as [| m] eqn:En; [lia |].
    subst i_eng. replace (2 * S m - 1) with (2 * m + 1) by lia.
    exact (read_energies_full STRSZ _ _ m 0 body lb _ q Hrun).
  - apply Nat.eqb_neq in E. right. split; [lia |].
    inversion Hw; subst tr7. split; [reflexivity |].
    pose proof (read_energies_short STRSZ _ _ _ _ _ _ _ _ _ Hrun) as Hs.
    rewrite Nat.sub_0_r in Hs. apply Hs. lia.
Qed.

Lemma warning_when_short_witness :
  exists inp n l eng_type body lb i_eng,
    files cu_world "/phs/ni.phs" = Some inp
    /\ read_header 256 cu_world "/phs/ni.phs" inp
       = ([], Return (n, l, eng_type, body, lb))
    /\ n_eng ni_set
       = Some i_eng
    /\ ((i_eng = Z.to_nat n
         /\ [Fopen "/phs/ni.phs"; WarningEOF 3 3 "/phs/ni.phs"]
            = [Fopen "/phs/ni.phs"]
         /\ (0 < i_eng ->
             Nat.iter (2 * i_eng - 1) (drop_line 256) body <> []))
        \/ (i_eng < Z.to_nat n
            /\ [Fopen "/phs/ni.phs"; WarningEOF 3 3 "/phs/ni.phs"]
               = [Fopen "/phs/ni.phs";
                  WarningEOF (Z.to_nat n) (i_eng + 1) "/phs/ni.phs"]
            /\ Nat.iter (2 * i_eng + 1) (drop_line 256) body = [])).
Proof.
  apply (warning_when_short 256 cu_world "/phs/ni.phs" fresh_slot
           ni_set
           [Fopen "/phs/ni.phs"; WarningEOF 3 3 "/phs/ni.phs"]).
  vm_compute. reflexivity.
Defined.

(** ** A line of any number of phase shifts (lines 227-237) *)

Lemma store_firstn_skipn {A : Type} (i : nat) (v : A) (l : list A) :
  i < List.length l -> store i v l = firstn i l ++ v :: skipn (S i) l.
Proof.
  revert i. induction l as [| x t IH]; intros [| j] H; simpl in *;
    try lia; [reflexivity |].
  f_equal. apply IH. lia.
Qed.

Lemma packed_text_shape (x : packed) (rest : list ascii) :
  packed_text x ++ rest
  = (p_lead x ++ sign_of (p_neg x)) ++ (p_ip x ++ "."%char :: p_fp x) ++ rest.
Proof. unfold packed_text, fixed. rewrite <- !app_assoc. reflexivity. Qed.

Lemma packed_ok_parts (x : packed) :
  packed_ok x = true ->
  forallb (fun c => Ascii.eqb c " ") (p_lead x) = true
  /\ forallb isdigit (p_ip x) = true /\ forallb isdigit (p_fp x) = true
  /\ p_ip x ++ p_fp x <> [].
Proof.
  unfold packed_ok. rewrite !andb_true_iff, negb_true_iff.
  intros [[[H1 H2] H3] H4]. repeat split; auto.
  intros E. rewrite E in H4. discriminate.
Qed.

(** The text of a number that is set off begins with a blank or a minus. *)
Lemma set_off_head (x : packed) (rest : list ascii) :
  packed_ok x = true -> set_off x = true ->
  exists c t, packed_text x ++ rest = c :: t
              /\ is_blank_or_minus c = true /\ ends_number c = true.
Proof.
  intros Hok Hoff. destruct (packed_ok_parts x Hok) as (Hlead & _).
  unfold packed_text, set_off in *.
  destruct (p_lead x) as [| c lead].
  - simpl in Hoff. rewrite Hoff. unfold fixed, sign_of. cbn [app].
    eexists. eexists. split; [reflexivity |]. split; reflexivity.
  - simpl in Hlead. apply andb_true_iff in Hlead. destruct Hlead as [Hc _].
    apply Ascii.eqb_eq in Hc. subst c. cbn [app].
    eexists. eexists. split; [reflexivity |]. split; reflexivity.
Qed.

Lemma sscanf_le_packed (x : packed) (rest : list ascii) :
  packed_ok x = true ->
  match rest with [] => True | c :: _ => ends_number c = true end ->
  sscanf_le (packed_text x ++ rest) = Some (packed_value x).
Proof.
  intros Hok Hrest. destruct (packed_ok_parts x Hok) as (Hlead & Hip & Hfp & Hne).
  assert (Hsp : forallb isspace (p_lead x) = true)
    by (revert Hlead; apply forallb_impl; intros c Hc; apply blank_is, Hc).
  unfold sscanf_le, packed_text. rewrite <- app_assoc.
  rewrite cstr_app
    by (revert Hlead; apply forallb_impl; intros c Hc;
        apply Ascii.eqb_eq in Hc; subst c; reflexivity).
  rewrite cstr_app by (apply fixed_not_NUL; assumption).
  apply scan_le_fixed; try assumption.
  apply cstr_head. exact Hrest.
Qed.

Lemma read_fields_packed (nums : list packed) :
  forall i tail stop row ps,
    forallb packed_ok nums = true ->
    forallb set_off (tl nums) = true ->
    match tail with [] => True | c :: _ => ends_number c = true end ->
    scan_while (fun c => negb (is_blank_or_minus c)) tail = Some stop ->
    row + i + List.length nums <= List.length ps ->
    read_fields (List.length nums) i (flat_map packed_text nums ++ tail)
                row ps
    = Return (firstn (row + i) ps
                ++ map (fun x => Some (packed_value x)) nums
                ++ skipn (row + i + List.length nums) ps).
Proof.
  induction nums as [| x xs IH]; intros i tail stop row ps Hok Hoff Htail
    Hstop Hlen.
  - cbn [List.length read_fields map app]. rewrite Nat.add_0_r.
    rewrite firstn_skipn. reflexivity.
  - cbn [forallb] in Hok. apply andb_true_iff in Hok. destruct Hok as [Hx Hxs].
    cbn [tl] in Hoff. cbn [List.length] in *.
    destruct (packed_ok_parts x Hx) as (Hlead & Hip & Hfp & Hne).
    cbn [flat_map]. rewrite <- app_assoc.
    set (rest := flat_map packed_text xs ++ tail).
    assert (Hrest : match rest with
                    | [] => True
                    | c :: _ => ends_number c = true
                    end
                    /\ exists stop1,
                         scan_while (fun c => negb (is_blank_or_minus c)) rest
                         = Some stop1
                         /\ (xs <> [] -> stop1 = 0)).
    { unfold rest. destruct xs as [| y ys].
      - cbn [flat_map app]. split; [exact Htail |].
        exists stop. split; [exact Hstop | congruence].
      - cbn [forallb] in Hxs, Hoff.
        apply andb_true_iff in Hxs. destruct Hxs as [Hy _].
        apply andb_true_iff in Hoff. destruct Hoff as [Hoy _].
        cbn [flat_map]. rewrite <- app_assoc.
        destruct (set_off_head y (flat_map packed_text ys ++ tail) Hy Hoy)
          as (c & t & -> & Hc & He).
        split; [exact He |]. exists 0. split; [| reflexivity].
        cbn [scan_while]. rewrite Hc. reflexivity. }
    destruct Hrest as [Hends (stop1 & Hstop1 & Hzero)].
    pose proof (sscanf_le_packed x rest Hx Hends) as Hval.
    rewrite packed_text_shape in Hval |- *.
    rewrite (read_fields_step (List.length xs) i _ _ _ stop1 row ps).
    + rewrite Hval. cbn [assign_scanned].
      rewrite (store_firstn_skipn (row + i)) by lia.
      destruct xs as [| y ys].
      * cbn [List.length read_fields map app].
        replace (row + i + 1) with (S (row + i)) by lia. reflexivity.
      * rewrite (Hzero ltac:(discriminate)).
        change (skipn 0 rest) with rest. unfold rest.
        rewrite (IH (S i) tail stop row _ Hxs); try assumption.
        -- f_equal.
           replace (row + S i) with (S (row + i)) by lia.
           assert (Hf : List.length (firstn (row + i) ps) = row + i)
             by (rewrite length_firstn; lia).
           rewrite firstn_app, Hf.
           replace (S (row + i) - (row + i)) with 1 by lia.
           rewrite firstn_all2 by (rewrite Hf; lia).
           rewrite skipn_app, Hf.
           rewrite (skipn_all2 (firstn (row + i) ps)) by (rewrite Hf; lia).
           replace (S (row + i) + List.length (y :: ys) - (row + i))
             with (S (List.length (y :: ys))) by lia.
           cbn [firstn app map]. rewrite skipn_cons, <- app_assoc. cbn [app].
           rewrite skipn_skipn.
           replace (List.length (y :: ys) + S (row + i))
             with (row + i + S (List.length (y :: ys))) by lia.
           reflexivity.
        -- cbn [forallb tl] in *. apply andb_true_iff in Hoff. tauto.
        -- rewrite length_app, length_firstn. cbn [List.length].
           rewrite length_skipn. cbn [List.length] in Hlen. lia.
    + rewrite forallb_app. apply andb_true_iff. split.
      * revert Hlead. apply forallb_impl. intros c Hc. apply blank_is, Hc.
      * destruct (p_neg x); reflexivity.
    + apply digits_point_field; assumption.
    + destruct (p_ip x); discriminate.
    + exact Hstop1.
Qed.

(** X9.  A line of [nl] numbers in fixed notation (digits, a point, digits;
    no exponent), each after the first set off from the one before it by
    blanks or by nothing but its own minus, fills the [nl] cells of its row
    with the values of the numbers, in their order, and leaves every other
    cell of [pshift] as it was.  The last number is followed in the array by
    a character that ends it, and somewhere behind it by a blank or a minus,
    where the last [while] stops. *)
Theorem packed_line (nums : list packed) (tail : list ascii)
        (stop row : nat) (ps : list (option real)) :
  forallb packed_ok nums = true ->
  forallb set_off (tl nums) = true ->
  match tail with [] => True | c :: _ => ends_number c = true end ->
  scan_while (fun c => negb (is_blank_or_minus c)) tail = Some stop ->
  row + List.length nums <= List.length ps ->
  read_pshift (List.length nums) 0 0 (flat_map packed_text nums ++ tail)
              row ps
  = Return (firstn row ps
              ++ map (fun x => Some (packed_value x)) nums
              ++ skipn (row + List.length nums) ps).
Proof.
  intros Hok Hoff Htail Hstop Hlen.
  rewrite read_pshift_cells. cbn [skipn].
  rewrite (read_fields_packed nums 0 tail stop row ps Hok Hoff Htail Hstop)
    by lia.
  rewrite Nat.add_0_r. reflexivity.
Qed.

Lemma packed_line_witness :
  read_pshift 3 0 0
              (list_ascii_of_string " 0.1000-0.2000 0.0300"
                 ++ [LF; NUL; " "%char])
              3 [None; None; None; None; None; None]
  = Return [None; None; None;
            Some 0.1000%Q; Some (-0.2000)%Q; Some 0.0300%Q].
Proof.
  exact (packed_line
           [mk_packed [" "%char] false (list_ascii_of_string "0")
                      (list_ascii_of_string "1000");
            mk_packed [] true (list_ascii_of_string "0")
                      (list_ascii_of_string "2000");
            mk_packed [" "%char] false (list_ascii_of_string "0")
                      (list_ascii_of_string "0300")]
           [LF; NUL; " "%char] 2 3 [None; None; None; None; None; None]
           eq_refl eq_refl eq_refl eq_refl ltac:(simpl; lia)).
Defined.

(** ** What a reading that returns went through *)

Lemma read_file_Return (STRSZ : nat) (w : world) (filename : string)
      (phs phs' : leed_phase) (tr : list event) :
  read_file STRSZ w filename phs = (tr, Return phs') ->
  exists inp n l eng_type body lb i_eng q,
    files w filename = Some inp
    /\ read_header STRSZ w filename inp
       = ([], Return (n, l, eng_type, body, lb))
    /\ (0 <= n)%Z /\ (0 <= l)%Z
    /\ read_energies STRSZ (eng_scale_of eng_type) (Z.to_nat l + 1)
                     (Z.to_nat n) 0 body lb
                     (set_pshift (malloc None (Z.to_nat n * (Z.to_nat l + 1)))
                        (set_energy (malloc None (Z.to_nat n))
                           (set_lmax l (set_input_file filename phs))))
       = Return (i_eng, q)
    /\ phs' = set_n_eng i_eng q.
Proof.
  unfold read_file. intros H.
  apply bind_Return_inv in H. destruct H as (tr1 & [] & tr2 & _ & H & ->).
  destruct (files w filename) as [inp |] eqn:Hfile.
  2:{ apply bind_Return_inv in H. destruct H as (? & ? & ? & _ & H & _).
      discriminate. }
  apply bind_Return_inv in H.
  destruct H as (tr3 & [[[[n l] eng_type] body] lb] & tr4 & Hhdr & H & ->).
  pose proof (read_header_Return STRSZ w filename inp _ _ Hhdr). subst tr3.
  unfold read_tables in H.
  destruct ((n <? 0)%Z || (l <? 0)%Z) eqn:Eneg; [discriminate |].
  apply orb_false_iff in Eneg. destruct Eneg as [En El].
  apply Z.ltb_ge in En, El.
  apply bind_Return_inv in H.
  destruct H as (tr5 & [i_eng q] & tr6 & Hrun & H & ->).
  apply lift_inv in Hrun. destruct Hrun as [-> Hrun]. symmetry in Hrun.
  apply bind_Return_inv in H. destruct H as (tr7 & [] & tr8 & _ & H & ->).
  assert (E : phs' = set_n_eng i_eng q) by (inversion H; reflexivity).
  exists inp, n, l, eng_type, body, lb, i_eng, q. auto 10.
Qed.

Lemma fresh_tables (n nl : nat) (l : Z) (phs : leed_phase) :
  let phs0 := set_pshift (malloc None (n * nl))
                (set_energy (malloc None n) (set_lmax l phs)) in
  (forall j, 0 <= j -> nth j (energy phs0) None = None)
  /\ (forall c, 0 * nl <= c -> nth c (pshift phs0) None = None)
  /\ List.length (energy phs0) = n
  /\ List.length (pshift phs0) = n * nl.
Proof.
  cbn [energy pshift set_pshift set_energy]. unfold malloc.
  rewrite !repeat_length.
  repeat split; auto; intros; apply nth_malloc_None.
Qed.

(** ** Comment lines among the data (lines 161 and 208-223) *)

Lemma scan_le_comment (line : list ascii) :
  Ascii.eqb (hd NUL line) "#" = true -> scan_le (cstr line) = None.
Proof.
  destruct line as [| c t]; [discriminate |]. cbn [hd]. intros H.
  apply Ascii.eqb_eq in H. subst c. rewrite cstr_cons by reflexivity.
  reflexivity.
Qed.

(** X10.  Comment lines are skipped in front of the first line only.  In
    every file the function reads to its return, a line that begins with
    [#] where the energy at index [k] is expected counts as that energy:
    nothing is scanned from it, so [energy[k]] keeps the indeterminate
    value of the cell [malloc] gave, and so does [eng_min] when [k] is 0. *)
Theorem comment_among_the_data (STRSZ : nat) (w : world) (filename : string)
        (phs phs' : leed_phase) (tr : list event) :
  read_file STRSZ w filename phs = (tr, Return phs') ->
  exists inp n l eng_type body lb i_eng,
    files w filename = Some inp
    /\ read_header STRSZ w filename inp
       = ([], Return (n, l, eng_type, body, lb))
    /\ n_eng phs' = Some i_eng
    /\ forall k, k < i_eng ->
         Ascii.eqb (hd NUL (line_at STRSZ (2 * k) body)) "#" = true ->
         nth_error (energy phs') k = Some None
         /\ (k = 0 -> eng_min phs' = None).
Proof.
  intros H. apply read_file_Return in H.
  destruct H as (inp & n & l & eng_type & body & lb & i_eng & q
                 & Hfile & Hhdr & Hn & Hl & Hrun & ->).
  exists inp, n, l, eng_type, body, lb, i_eng.
  split; [exact Hfile |]. split; [exact Hhdr |]. split; [reflexivity |].
  intros k Hk Hhash. cbn [energy eng_min set_n_eng].
  destruct (fresh_tables (Z.to_nat n) (Z.to_nat l + 1) l
              (set_input_file filename phs)) as (Hnone & _ & Hlen & _).
  pose proof (read_energies_bound _ _ _ _ _ _ _ _ _ _ Hrun) as [Hb Hlen'].
  assert (Hcell : nth (0 + k) (energy q) None
                  = scaled_energy (eng_scale_of eng_type)
                                  (line_at STRSZ (2 * k) body)).
  { eapply stored_energies; [exact Hnone | | exact Hrun | lia].
    rewrite Hlen. lia. }
  cbn [Nat.add] in Hcell. unfold scaled_energy in Hcell.
  rewrite (scan_le_comment _ Hhash) in Hcell. cbn [option_map] in Hcell.
  split.
  - rewrite (nth_error_nth' (energy q) None) by lia.
    f_equal. exact Hcell.
  - intros ->.
    apply read_energies_min_max in Hrun; [| exact Hnone | rewrite Hlen; lia].
    destruct Hrun as (_ & _ & _ & Hmin & _).
    rewrite Hmin by lia. exact Hcell.
Qed.

Lemma comment_among_the_data_witness :
  exists inp n l eng_type body lb i_eng,
    files shelf_world "/phs/marked.phs" = Some inp
    /\ read_header 256 shelf_world "/phs/marked.phs" inp
       = ([], Return (n, l, eng_type, body, lb))
    /\ n_eng marked_set
       = Some i_eng
    /\ forall k, k < i_eng ->
         Ascii.eqb (hd NUL (line_at 256 (2 * k) body)) "#" = true ->
         nth_error
           (energy marked_set) k
         = Some None
         /\ (k = 0 ->
             eng_min marked_set
             = None).
Proof.
  apply (comment_among_the_data 256 shelf_world "/phs/marked.phs" fresh_slot
           marked_set
           [Fopen "/phs/marked.phs"]).
  vm_compute. reflexivity.
Defined.

(** ** The cells the function leaves as they were (lines 204-245) *)

Lemma read_fields_other (todo : nat) :
  forall i cells row ps ps',
    read_fields todo i cells row ps = Return ps' ->
    forall c, c < row + i \/ row + i + todo <= c ->
      nth c ps' None = nth c ps None.
Proof.
  induction todo as [| todo IH]; intros i cells row ps ps' H c Hc;
    cbn [read_fields] in H.
  - apply Return_inj in H. subst ps'. reflexivity.
  - destruct (scan_while is_blank_or_minus cells) as [a |]; [| discriminate].
    destruct (scan_while _ (skipn a cells)) as [b |]; [| discriminate].
    rewrite (IH _ _ _ _ _ H c) by lia.
    apply nth_store_other. lia.
Qed.

Lemma read_energies_unread (STRSZ : nat) (eng_scale : real) (nl todo : nat) :
  forall i_eng inp lb phs i' phs',
    (forall j, i_eng <= j -> nth j (energy phs) None = None) ->
    (forall c, i_eng * nl <= c -> nth c (pshift phs) None = None) ->
    read_energies STRSZ eng_scale nl todo i_eng inp lb phs = Return (i', phs') ->
    (forall j, i' < j -> nth j (energy phs') None = None)
    /\ (forall c, i' * nl <= c -> nth c (pshift phs') None = None).
Proof.
  induction todo as [| todo IH]; intros i_eng inp lb phs i' phs' He Hp H;
    cbn [read_energies] in H.
  - apply Return_inj, pair_equal_spec in H. destruct H as [<- <-].
    split; [intros j Hj; apply He; lia | exact Hp].
  - destruct (fgets lb STRSZ inp) as [[lb1 inp1] |].
    2:{ apply Return_inj, pair_equal_spec in H. destruct H as [<- <-].
        split; [intros j Hj; apply He; lia | exact Hp]. }
    pose proof (energy_line_energy eng_scale i_eng lb1 phs) as Hen.
    assert (Hps : pshift (energy_line eng_scale i_eng lb1 phs) = pshift phs).
    { unfold energy_line. destruct (i_eng =? 0); reflexivity. }
    set (phs2 := energy_line eng_scale i_eng lb1 phs) in *.
    destruct (fgets lb1 STRSZ inp1) as [[lb2 inp2] |].
    + destruct (read_pshift nl 0 0 lb2 (i_eng * nl) (pshift phs2))
        as [ps | |] eqn:Eps; try discriminate.
      rewrite read_pshift_cells in Eps.
      apply IH in H; [exact H | |].
      * cbn [energy set_pshift]. intros j Hj. rewrite Hen.
        rewrite nth_store_other by lia. apply He. lia.
      * cbn [pshift set_pshift]. intros c Hc.
        rewrite (read_fields_other _ _ _ _ _ _ Eps c) by (simpl in Hc; lia).
        rewrite Hps. apply Hp. simpl in Hc. lia.
    + destruct i_eng as [| j]; [discriminate |].
      apply Return_inj, pair_equal_spec in H. destruct H as [<- <-].
      cbn [energy pshift set_eng_max set_energy]. split.
      * intros k Hk. rewrite nth_store_other by lia. rewrite Hen.
        rewrite nth_store_other by lia. apply He. lia.
      * rewrite Hps. exact Hp.
Qed.

(** X11.  Only the first [n_eng] entries of a set hold data.  In every slot
    the function has read to its return, the cells of [energy] behind index
    [n_eng] and the cells of [pshift] from row [n_eng] on are as [malloc]
    left them; the cell [energy[n_eng]] itself, where there is one, is
    indeterminate or was set to 0 (line 241). *)
Theorem cells_never_written (STRSZ : nat) (w : world) (filename : string)
        (phs phs' : leed_phase) (tr : list event) :
  read_file STRSZ w filename phs = (tr, Return phs') ->
  exists l i_eng,
    lmax phs' = Some l /\ n_eng phs' = Some i_eng
    /\ i_eng <= List.length (energy phs')
    /\ (forall k, i_eng < k < List.length (energy phs') ->
          nth_error (energy phs') k = Some None)
    /\ (forall c, i_eng * (Z.to_nat l + 1) <= c < List.length (pshift phs') ->
          nth_error (pshift phs') c = Some None)
    /\ (i_eng < List.length (energy phs') ->
        nth_error (energy phs') i_eng = Some None
        \/ nth_error (energy phs') i_eng = Some (Some 0%Q)).
Proof.
  intros H.
  pose proof (read_file_Return _ _ _ _ _ _ H)
    as (inp & n & l & eng_type & body & lb & i_eng & q
        & Hfile & Hhdr & Hn & Hl & Hrun & ->).
  exists l, i_eng. cbn [lmax n_eng energy pshift set_n_eng].
  destruct (fresh_tables (Z.to_nat n) (Z.to_nat l + 1) l
              (set_input_file filename phs)) as (He & Hp & Hlen & _).
  pose proof (read_energies_keeps _ _ _ _ _ _ _ _ _ _ Hrun)
    as (_ & _ & Hlmax & _).
  pose proof (read_energies_bound _ _ _ _ _ _ _ _ _ _ Hrun) as [Hb Hlen'].
  pose proof (read_energies_unread _ _ _ _ _ _ _ _ _ _ He Hp Hrun)
    as [Hue Hup].
  split; [rewrite Hlmax; reflexivity |]. split; [reflexivity |].
  split; [rewrite Hlen', Hlen; lia |]. split; [| split].
  - intros k Hk. rewrite (nth_error_nth' (energy q) None) by lia.
    f_equal. apply Hue. lia.
  - intros c Hc. rewrite (nth_error_nth' (pshift q) None) by lia.
    f_equal. apply Hup. lia.
  - intros Hk. rewrite (nth_error_nth' (energy q) None) by lia.
    apply read_energies_min_max in Hrun; [| exact He | rewrite Hlen; lia].
    destruct Hrun as (_ & [Z | (Z & _)] & _); rewrite Z; auto.
Qed.

Lemma cells_never_written_witness :
  exists l i_eng,
    lmax ni_set = Some l
    /\ n_eng ni_set
       = Some i_eng
    /\ i_eng <= List.length
                  (energy ni_set)
    /\ (forall k,
          i_eng < k < List.length
                        (energy ni_set) ->
          nth_error (energy ni_set) k
          = Some None)
    /\ (forall c,
          i_eng * (Z.to_nat l + 1) <= c
          < List.length (pshift ni_set) ->
          nth_error (pshift ni_set) c
          = Some None)
    /\ (i_eng < List.length
                  (energy ni_set) ->
        nth_error (energy ni_set) i_eng
        = Some None
        \/ nth_error (energy ni_set) i_eng
           = Some (Some 0%Q)).
Proof.
  apply (cells_never_written 256 cu_world "/phs/ni.phs" fresh_slot
           ni_set
           [Fopen "/phs/ni.phs"; WarningEOF 3 3 "/phs/ni.phs"]).
  vm_compute. reflexivity.
Defined.

(** ** The cell [dr[0]] (lines 106-109 and 133) *)






(** ** The automatic arrays (lines 62-64, 161 and 168) *)

Lemma take_line_room (room : nat) :
  forall inp, List.length (fst (take_line room inp)) <= room.
Proof.
  induction room as [| r IH]; intros [| c t]; simpl; try lia.
  destruct (Ascii.eqb c LF); simpl; [lia |].
  specialize (IH t). destruct (take_line r t). simpl in *. lia.
Qed.

Lemma span_length {A : Type} (p : A -> bool) (l : list A) :
  List.length (fst (span p l)) + List.length (snd (span p l)) = List.length l.
Proof. rewrite <- length_app, span_eq. reflexivity. Qed.

Lemma cstr_length (l : list ascii) : List.length (cstr l) <= List.length l.
Proof.
  unfold cstr.
  pose proof (span_length (fun c => negb (Ascii.eqb c NUL)) l). lia.
Qed.

Lemma scan_sign_length (l : list ascii) :
  List.length (snd (scan_sign l)) <= List.length l.
Proof.
  unfold scan_sign. destruct l as [| c t]; [simpl; lia |].
  destruct (Ascii.eqb c "-"); [simpl; lia |].
  destruct (Ascii.eqb c "+"); simpl; lia.
Qed.

Lemma scan_d_shorter (l r : list ascii) (z : Z) :
  scan_d l = Some (z, r) -> List.length r < List.length l.
Proof.
  unfold scan_d, skip_space.
  pose proof (span_length isspace l) as H1.
  pose proof (scan_sign_length (snd (span isspace l))) as H2.
  destruct (scan_sign (snd (span isspace l))) as [neg l1]. simpl in H2.
  pose proof (span_length isdigit l1) as H3.
  destruct (span isdigit l1) as [ds l2]. simpl in H3.
  destruct ds; [discriminate |]. intros E. inversion E; subst.
  simpl in H3. lia.
Qed.

Lemma scan_s_length (l tok r : list ascii) :
  scan_s l = Some (tok, r) -> List.length tok <= List.length l.
Proof.
  unfold scan_s, skip_space.
  pose proof (span_length isspace l) as H1.
  pose proof (span_length (fun c => negb (isspace c)) (snd (span isspace l)))
    as H2.
  destruct (span (fun c => negb (isspace c)) (snd (span isspace l)))
    as [t l1]. simpl in H2.
  destruct t; [discriminate |]. intros E. inversion E; subst. lia.
Qed.

(** The unit token is shorter than the string it was scanned from. *)
Lemma unit_token_length (lb tok : list ascii) (n l : Z) :
  sscanf_d_d_s lb = Hdr3 n l tok ->
  List.length tok + 2 <= List.length (cstr lb).
Proof.
  unfold sscanf_d_d_s.
  destruct (scan_d (cstr lb)) as [[n1 r1] |] eqn:E1; [| discriminate].
  destruct (scan_d r1) as [[l1 r2] |] eqn:E2; [| discriminate].
  destruct (scan_s r2) as [[t r3] |] eqn:E3; [| discriminate].
  intros H. inversion H; subst.
  apply scan_d_shorter in E1, E2. apply scan_s_length in E3. lia.
Qed.

Lemma fgets_length (STRSZ : nat) (buf inp lb rest : list ascii) :
  0 < STRSZ -> List.length buf = STRSZ ->
  fgets buf STRSZ inp = Some (lb, rest) ->
  List.length lb = STRSZ /\ List.length (cstr lb) < STRSZ.
Proof.
  intros Hpos Hbuf. unfold fgets. destruct inp as [| c t]; [discriminate |].
  pose proof (take_line_room (STRSZ - 1) (c :: t)) as Hroom.
  destruct (take_line (STRSZ - 1) (c :: t)) as [line r]. cbn [fst] in Hroom.
  intros H. assert (E : lb = line ++ NUL :: skipn (S (List.length line)) buf)
    by congruence.
  subst lb. split.
  - rewrite length_app. cbn [List.length]. rewrite length_skipn. lia.
  - rewrite cstr_app_NUL. pose proof (cstr_length line). lia.
Qed.

Lemma skip_comments_length (STRSZ fuel : nat) :
  forall buf inp lb rest,
    0 < STRSZ -> List.length buf = STRSZ ->
    skip_comments STRSZ fuel buf inp = Return (lb, rest) ->
    List.length lb = STRSZ /\ List.length (cstr lb) < STRSZ.
Proof.
  induction fuel as [| fuel IH]; intros buf inp lb rest Hpos Hbuf H;
    cbn [skip_comments] in H; [discriminate |].
  destruct (fgets buf STRSZ inp) as [[lb1 inp1] |] eqn:E; [| discriminate].
  pose proof (fgets_length _ _ _ _ _ Hpos Hbuf E) as [Hl Hc].
  destruct (Ascii.eqb (hd NUL lb1) "#").
  - exact (IH _ _ _ _ Hpos Hl H).
  - apply Return_inj, pair_equal_spec in H. destruct H as [<- _]. auto.
Qed.

Lemma entry_array_length (STRSZ : nat) (cells : nat -> ascii) :
  List.length (entry_array STRSZ cells) = STRSZ.
Proof. unfold entry_array. rewrite length_map, length_seq. reflexivity. Qed.

(** X13.  The two arrays are never overrun by the first line.  When
    [read_header] returns, [linebuffer] and [eng_type] have their [STRSZ]
    cells, the string in [linebuffer] ends inside the array, and a unit
    token, which ["%s"] copies without a bound, is at least two characters
    shorter than that string: with its NUL it fits [eng_type]. *)
Theorem arrays_hold_the_first_line (STRSZ : nat) (w : world)
        (filename : string) (inp eng_type body lb : list ascii)
        (tr : list event) (n l : Z) :
  0 < STRSZ ->
  read_header STRSZ w filename inp = (tr, Return (n, l, eng_type, body, lb)) ->
  List.length lb = STRSZ
  /\ List.length (cstr lb) < STRSZ
  /\ List.length eng_type = STRSZ
  /\ forall tok, sscanf_d_d_s lb = Hdr3 n l tok ->
                 List.length tok + 2 < STRSZ
                 /\ cstr eng_type = tok.
Proof.
  intros Hpos H. unfold read_header in H.
  destruct (skip_comments STRSZ (List.length inp) _ inp)
    as [[lb1 inp1] | |] eqn:Eskip; try discriminate.
  rewrite bind_lift_Return in H.
  pose proof (skip_comments_length _ _ _ _ _ _ Hpos
                (entry_array_length STRSZ (linebuffer_entry w)) Eskip)
    as [Hl Hc].
  pose proof (entry_array_length STRSZ (eng_type_entry w)) as He.
  destruct (sscanf_d_d_s lb1) as [| n1 | n1 l1 | n1 l1 tok1] eqn:Ehdr;
    try discriminate;
    unfold ret in H; apply pair_equal_spec in H; destruct H as [_ H];
    apply Return_inj in H;
    repeat (apply pair_equal_spec in H; destruct H as [H ?]);
    subst n1 l1 inp1 lb1 eng_type.
  - repeat split; auto; congruence.
  - pose proof (unit_token_length _ _ _ _ Ehdr) as Htok.
    split; [exact Hl |]. split; [exact Hc |]. split.
    + rewrite length_app. cbn [List.length]. rewrite length_skipn. lia.
    + intros tok E. assert (tok1 = tok) by congruence. subst tok1.
      split; [lia |]. rewrite cstr_app_NUL.
      pose proof (unit_token_no_NUL _ _ _ _ Ehdr) as Hno.
      rewrite <- (app_nil_r tok) at 1. rewrite (cstr_app _ _ Hno).
      apply app_nil_r.
Qed.

Lemma arrays_hold_the_first_line_witness :
  List.length cu_linebuffer = 256
  /\ List.length (cstr cu_linebuffer) < 256
  /\ List.length cu_eng_type = 256
  /\ forall tok, sscanf_d_d_s cu_linebuffer = Hdr3 2 1 tok ->
                 List.length tok + 2 < 256 /\ cstr cu_eng_type = tok.
Proof.
  apply (arrays_hold_the_first_line 256 cu_world "/phs/cu.phs" cu_file
           cu_eng_type cu_body cu_linebuffer [] 2 1).
  - lia.
  - vm_compute. reflexivity.
Defined.

(** ** A first line without a unit (lines 64, 168 and 178-192) *)

(** X14.  When the first line holds the two numbers and nothing more,
    [sscanf] leaves [eng_type] alone, and the array was never initialised:
    the scale of lines 178-192 is chosen from the bytes the array holds on
    entry, and every energy stored is the value of its line times that
    scale.  Bytes that spell [eV] turn a file in Hartree into one read as
    eV. *)
Theorem scale_without_unit (STRSZ : nat) (w : world) (filename : string)
        (phs phs' : leed_phase) (tr : list event) :
  read_file STRSZ w filename phs = (tr, Return phs') ->
  exists inp n l eng_type body lb i_eng,
    files w filename = Some inp
    /\ read_header STRSZ w filename inp
       = ([], Return (n, l, eng_type, body, lb))
    /\ n_eng phs' = Some i_eng
    /\ (sscanf_d_d_s lb = Hdr2 n l ->
        forall k, k < i_eng ->
          nth_error (energy phs') k
          = Some (scaled_energy
                    (eng_scale_of (entry_array STRSZ (eng_type_entry w)))
                    (line_at STRSZ (2 * k) body))).
Proof.
  intros H. apply read_file_Return in H.
  destruct H as (inp & n & l & eng_type & body & lb & i_eng & q
                 & Hfile & Hhdr & Hn & Hl & Hrun & ->).
  exists inp, n, l, eng_type, body, lb, i_eng.
  split; [exact Hfile |]. split; [exact Hhdr |]. split; [reflexivity |].
  intros Hbare k Hk. cbn [energy set_n_eng].
  rewrite <- (absent_token_keeps_eng_type _ _ _ _ _ _ _ _ _ _ Hhdr Hbare).
  destruct (fresh_tables (Z.to_nat n) (Z.to_nat l + 1) l
              (set_input_file filename phs)) as (Hnone & _ & Hlen & _).
  pose proof (read_energies_bound _ _ _ _ _ _ _ _ _ _ Hrun) as [Hb Hlen'].
  rewrite (nth_error_nth' (energy q) None) by lia. f_equal.
  change k with (0 + k) at 1.
  eapply stored_energies; [exact Hnone | | exact Hrun | lia].
  rewrite Hlen. lia.
Qed.

Lemma scale_without_unit_witness :
  energy (bare_set shelf_world)
  = [Some 27.18%Q]
  /\ nth_error
       (energy (bare_set stale_world)) 0
     = Some (Some (27.18 * (1 / 27.18))%Q).
Proof.
  split; [vm_compute; reflexivity |].
  destruct (scale_without_unit 256 stale_world "/phs/bare.phs" fresh_slot
              (bare_set stale_world)
              [Fopen "/phs/bare.phs"])
    as (inp & n & l & eng_type & body & lb & i_eng
        & Hfile & Hhdr & Hcount & Hcells).
  { vm_compute. reflexivity. }
  vm_compute in Hfile. apply (f_equal (fun o => match o with
                                               | Some x => x
                                               | None => []
                                               end)) in Hfile.
  subst inp. vm_compute in Hhdr.
  apply pair_equal_spec in Hhdr. destruct Hhdr as [_ Hhdr].
  apply Return_inj in Hhdr.
  repeat (apply pair_equal_spec in Hhdr; destruct Hhdr as [Hhdr ?]).
  subst n l eng_type body lb.
  vm_compute in Hcount. apply (f_equal (fun o => match o with
                                                 | Some x => x
                                                 | None => 0
                                                 end)) in Hcount.
  subst i_eng.
  rewrite (Hcells ltac:(vm_compute; reflexivity) 0 ltac:(lia)).
  vm_compute. reflexivity.
Defined.

(** ** The value returned (lines 111 and 278) *)


